(** * pairsandspreads: the threshold grid-search and cycle-counting engine

    A shallow embedding of [analyzer.py] (series alignment, spread
    calculation, the two-state cycle detector, the threshold sweep and the
    orchestrating loop of [main]) and of the per-tick transition of the live
    monitor in [bot.py], with the properties of the specification stated
    and proved over it.

    Numbers.  The Python code works on [float]s.  Every function below is
    written once, over an interface [PyNum] of the operations the source
    uses.  The program's numbers are the instance [float], the kernel's
    binary64 numbers: the sweep's grid is enumerated on it bit for bit,
    and the statements about the spread formula are proved on it, with
    rounding, overflow, underflow and NaN.  Statements that only compare
    numbers hold for every instance; the exact rationals [Q] are a second
    instance, on which some of them are also evaluated. *)

From Stdlib Require Import ZArith QArith Qround Qabs Floats Uint63 Lia.
From stdpp Require Import gmap strings list sorting.

(** ** Numbers *)

Declare Scope py_scope.
Delimit Scope py_scope with py.

Class PyNum (F : Type) : Type := {
  lit : Q -> F;                      (* the value of a decimal literal *)
  num_add : F -> F -> F;
  num_sub : F -> F -> F;
  num_mul : F -> F -> F;
  num_div : F -> F -> F;
  num_abs : F -> F;                  (* abs(x) *)
  num_ltb : F -> F -> bool;          (* x < y *)
  num_leb : F -> F -> bool;          (* x <= y *)
  num_eqb : F -> F -> bool;          (* x == y *)
  num_round : nat -> F -> F          (* round(x, ndigits) *)
}.

Notation "x + y" := (num_add x y) : py_scope.
Notation "x - y" := (num_sub x y) : py_scope.
Notation "x * y" := (num_mul x y) : py_scope.
Notation "x / y" := (num_div x y) : py_scope.
Notation "x <? y" := (num_ltb x y) : py_scope.
Notation "x <=? y" := (num_leb x y) : py_scope.
Notation "x >=? y" := (num_leb y x) : py_scope.
Notation "x =? y" := (num_eqb x y) : py_scope.

(** The one law a statement below needs: [<=] is transitive. *)
Class PyOrder (F : Type) `{PyNum F} : Prop :=
  num_leb_trans : forall x y z : F,
    (x <=? y)%py = true -> (y <=? z)%py = true -> (x <=? z)%py = true.

(** Rounding a rational to the nearest integer, ties to the even one. *)
Definition Zround_half_even (q : Q) : Z :=
  let f := Qfloor q in
  match Qcompare (q - inject_Z f) (1 # 2) with
  | Lt => f
  | Gt => (f + 1)%Z
  | Eq => if Z.even f then f else (f + 1)%Z
  end.

(** *** Exact rationals

    A second instance of the interface, for the statements that hold
    whatever the numbers are.  It is not the arithmetic of the program:
    what depends on rounding, overflow, underflow or NaN is stated on
    binary64. *)

Definition Q_round (ndigits : nat) (x : Q) : Q :=
  let p := (10 ^ Z.of_nat ndigits)%Z in
  Qmake (Zround_half_even (x * inject_Z p)) (Z.to_pos p).

#[export] Instance Q_PyNum : PyNum Q := {
  lit q := q;
  num_add := Qplus;
  num_sub := Qminus;
  num_mul := Qmult;
  num_div := Qdiv;
  num_abs := Qabs;
  num_ltb x y := negb (Qle_bool y x);
  num_leb := Qle_bool;
  num_eqb := Qeq_bool;
  num_round := Q_round
}.

(** *** binary64

    Literals.  An integer below 2^53 in magnitude is a binary64 number,
    and the quotient of two such numbers is rounded once, to nearest-even:
    this is the value Python gives a decimal literal [num/den] whose
    numerator and denominator are below 2^53, as those of every literal of
    the program are.

    [round(x, ndigits)].  CPython rounds the exact value of [x] to
    [ndigits] decimals, ties to even, and converts that decimal back to
    the nearest binary64 number.  [float_of_ratio k p] is the binary64
    number nearest to [k / p] for integers of any size: the division of
    [SpecFloat] applied to the two integers, which is rounded once.
    Zeros, infinities and NaN round to themselves, and a negative number
    that rounds to zero gives [-0.0]. *)

Definition float_of_Z (k : Z) : float :=
  match k with
  | Z0 => PrimFloat.zero
  | Zpos _ => PrimFloat.of_uint63 (Uint63.of_Z k)
  | Zneg p => PrimFloat.opp (PrimFloat.of_uint63 (Uint63.of_Z (Zpos p)))
  end.

Definition float_of_Q (q : Q) : float :=
  PrimFloat.div (float_of_Z (Qnum q)) (float_of_Z (Zpos (Qden q))).

(** The exact value [m * 2^e] of a finite binary64 number. *)
Definition Q_of_mantissa (m : positive) (e : Z) : Q :=
  match e with
  | Zneg p => Qmake (Zpos m) (2 ^ p)
  | _ => inject_Z (Zpos m * 2 ^ e)
  end.

Definition float_of_ratio (k : Z) (p : positive) : float :=
  match k with
  | Zpos m =>
      SF2Prim (SFdiv prec emax (S754_finite false m 0)
                 (S754_finite false p 0))
  | _ => PrimFloat.zero
  end.

Definition float_round (ndigits : nat) (x : float) : float :=
  match Prim2SF x with
  | S754_finite s m e =>
      let p := (10 ^ Z.of_nat ndigits)%Z in
      let k := Zround_half_even (Q_of_mantissa m e * inject_Z p) in
      let r := float_of_ratio k (Z.to_pos p) in
      if s then PrimFloat.opp r else r
  | _ => x
  end.

#[export] Instance float_PyNum : PyNum float := {
  lit := float_of_Q;
  num_add := PrimFloat.add;
  num_sub := PrimFloat.sub;
  num_mul := PrimFloat.mul;
  num_div := PrimFloat.div;
  num_abs := PrimFloat.abs;
  num_ltb := PrimFloat.ltb;
  num_leb := PrimFloat.leb;
  num_eqb := PrimFloat.eqb;
  num_round := float_round
}.

(** ** The program *)

Section Program.
Context {F : Type} `{PyNum F}.
Local Open Scope py_scope.

(** *** Series Aligner ([align_series]) *)

(** [{ts: p for ts, p in a}]: a later point overwrites an earlier one
    that has the same timestamp. *)
Definition dict_of_points (a : list (Z * F)) : gmap Z F :=
  fold_left (fun d '(ts, p) => <[ts := p]> d) a ∅.

(** [[d[ts] for ts in common]]; [None] stands for the [KeyError] a
    missing key raises. *)
Definition project (d : gmap Z F) (common : list Z) : option (list F) :=
  mapM (fun ts => d !! ts) common.

Definition align_series (a b : list (Z * F))
  : option (list Z * list F * list F) :=
  let dict_a := dict_of_points a in
  let dict_b := dict_of_points b in
  let common := merge_sort Z.le (elements (dom dict_a ∩ dom dict_b)) in
  match project dict_a common, project dict_b common with
  | Some series_a, Some series_b => Some (common, series_a, series_b)
  | _, _ => None
  end.

(** *** Spread Calculator ([calc_spread_list]) *)

(** The body of the loop, for one pair [(pa, pb)]. *)
Definition spread_point (coef pa pb : F) : F :=
  let '(pa_s, pb_s) :=
    if pa <? pb then (pa * coef, pb) else (pa, pb * coef) in
  let denom := (pa_s + pb_s) / lit 2 in
  if denom =? lit 0 then lit 0
  else num_abs (pa_s - pb_s) / denom * lit 100.

Definition calc_spread_list (series_a series_b : list F) (coef : F)
  : list F :=
  map (fun '(pa, pb) => spread_point coef pa pb) (zip series_a series_b).

(** *** Cycle Detector ([count_cycles_for_thresholds]) *)

(** One iteration of the loop over the pair [(state, count)]. *)
Definition cycle_step (open_thr close_thr : F) (st : string * nat) (s : F)
  : string * nat :=
  let '(state, count) := st in
  if String.eqb state "waiting_open" then
    if s >=? open_thr then ("waiting_close", count) else (state, count)
  else if String.eqb state "waiting_close" then
    if s <=? close_thr then ("waiting_open", S count) else (state, count)
  else (state, count).

Definition count_cycles_for_thresholds
  (spreads : list F) (open_thr close_thr : F) : nat :=
  snd (fold_left (cycle_step open_thr close_thr) spreads
         ("waiting_open", 0%nat)).

(** *** Threshold Sweeper (the loops of [analyze_pair]) *)

(** The module constants the loops read. *)
Record SweepConfig : Type := {
  OPEN_MIN : F;
  OPEN_MAX : F;
  OPEN_STEP : F;
  CLOSE_STEP : F
}.

(** The literal [1e-9] of the loop guards. *)
Definition eps : F := lit (1 # 1000000000).

(** [results.append((open_val, close_val, cycles))] when [cycles > 0]. *)
Definition retain (results : list (F * F * nat)) (open_val close_val : F)
  (cycles : nat) : list (F * F * nat) :=
  if (0 <? cycles)%nat then results ++ [(open_val, close_val, cycles)]
  else results.

(** The inner [while]; [None] when the fuel runs out before the guard
    fails. *)
Fixpoint close_loop (fuel : nat) (cfg : SweepConfig) (spreads : list F)
  (open_val max_close close_val : F) (results : list (F * F * nat))
  : option (list (F * F * nat)) :=
  match fuel with
  | O => None
  | S fuel' =>
      if close_val <=? max_close + eps then
        let cycles :=
          count_cycles_for_thresholds spreads open_val close_val in
        close_loop fuel' cfg spreads open_val max_close
          (num_round 10 (close_val + CLOSE_STEP cfg))
          (retain results open_val close_val cycles)
      else Some results
  end.

(** The outer [while]. *)
Fixpoint open_loop (fuel : nat) (cfg : SweepConfig) (spreads : list F)
  (open_val : F) (results : list (F * F * nat))
  : option (list (F * F * nat)) :=
  match fuel with
  | O => None
  | S fuel' =>
      if open_val <=? OPEN_MAX cfg + eps then
        let max_close := num_round 10 (open_val - lit 4 + eps) in
        if max_close <? lit 0 then
          open_loop fuel' cfg spreads
            (num_round 10 (open_val + OPEN_STEP cfg)) results
        else
          match close_loop fuel' cfg spreads open_val max_close (lit 0)
                  results with
          | None => None
          | Some results' =>
              open_loop fuel' cfg spreads
                (num_round 10 (open_val + OPEN_STEP cfg)) results'
          end
      else Some results
  end.

(** The (open, close) pairs the two loops visit, in the order they visit
    them: the same loops with the call of the detector left out. *)
Fixpoint close_grid (fuel : nat) (cfg : SweepConfig)
  (open_val max_close close_val : F) : option (list (F * F)) :=
  match fuel with
  | O => None
  | S fuel' =>
      if close_val <=? max_close + eps then
        cons (open_val, close_val) <$>
          close_grid fuel' cfg open_val max_close
            (num_round 10 (close_val + CLOSE_STEP cfg))
      else Some []
  end.

Fixpoint open_grid (fuel : nat) (cfg : SweepConfig) (open_val : F)
  : option (list (F * F)) :=
  match fuel with
  | O => None
  | S fuel' =>
      if open_val <=? OPEN_MAX cfg + eps then
        let max_close := num_round 10 (open_val - lit 4 + eps) in
        if max_close <? lit 0 then
          open_grid fuel' cfg (num_round 10 (open_val + OPEN_STEP cfg))
        else
          match close_grid fuel' cfg open_val max_close (lit 0) with
          | None => None
          | Some row =>
              app row <$>
                open_grid fuel' cfg
                  (num_round 10 (open_val + OPEN_STEP cfg))
          end
      else Some []
  end.

Definition grid (fuel : nat) (cfg : SweepConfig) : option (list (F * F)) :=
  open_grid fuel cfg (OPEN_MIN cfg).

(** [results.sort(key=lambda x: x[2], reverse=True)]: a stable sort by
    decreasing cycle count (equal counts keep their order).  A stable
    sort has one result, so insertion stands for Python's merge sort. *)
Fixpoint insert_by_cycles (x : F * F * nat) (l : list (F * F * nat))
  : list (F * F * nat) :=
  match l with
  | [] => [x]
  | y :: l' =>
      if (x.2 <? y.2)%nat then y :: insert_by_cycles x l'
      else x :: y :: l'
  end.

Definition sort_by_cycles (l : list (F * F * nat)) : list (F * F * nat) :=
  foldr insert_by_cycles [] l.

(** A record of the report: [{"open": .., "close": .., "cycles": ..}]. *)
Record CycleResult : Type := {
  open : F;
  close : F;
  cycles : nat
}.

Definition report_entry (r : F * F * nat) : CycleResult :=
  {| open := num_round 2 r.1.1; close := num_round 2 r.1.2;
     cycles := r.2 |}.

(** From [results = []] to [return out]. *)
Definition sweep (fuel : nat) (cfg : SweepConfig) (spreads : list F)
  : option (list CycleResult) :=
  match open_loop fuel cfg spreads (OPEN_MIN cfg) [] with
  | None => None
  | Some results =>
      Some (match results with
            | [] => []
            | _ => map report_entry (take 5 (sort_by_cycles results))
            end)
  end.
End Program.

Arguments SweepConfig F : clear implicits.
Arguments CycleResult F : clear implicits.

(** *** Analysis Orchestrator ([analyze_pair], [main]) *)

(** What a call of [analyze_pair] does: it returns [None], it returns the
    top-5 list, or an exception leaves it ([main] catches it). *)
Inductive outcome (F : Type) : Type :=
| NoData
| Report (out : list (CycleResult F))
| Raised.
Arguments NoData {F}.
Arguments Report {F} out.
Arguments Raised {F}.

(** An entry of [pairs.json]: [info["pair2"]] and [info.get("coef")]. *)
Record PairInfo (F : Type) : Type := {
  pair2 : string;
  coef : option F
}.
Arguments pair2 {F} _.
Arguments coef {F} _.

Section Orchestrator.
Context {F : Type} `{PyNum F}.
(** The data source: a call may change the world and may fail. *)
Context {World : Type}.
Variable fetch_klines_close :
  string -> World -> option (list (Z * F)) * World.
Variable cfg : SweepConfig F.
Variable fuel : nat.

(** [if key not in klines_cache: ...]; the first component is [None]
    when the fetch was needed and failed. *)
Definition fetch_cached (key : string)
  (klines_cache : gmap string (list (Z * F))) (w : World)
  : option (gmap string (list (Z * F))) * World :=
  match klines_cache !! key with
  | Some _ => (Some klines_cache, w)
  | None =>
      match fetch_klines_close key w with
      | (None, w') => (None, w')
      | (Some kl, w') => (Some (<[key := kl]> klines_cache), w')
      end
  end.

(** From [align_series] to the end; the outer [None] is the fuel. *)
Definition analyze_series (klines1 klines2 : option (list (Z * F)))
  (coef : F) : option (outcome F) :=
  match klines1, klines2 with
  | Some k1, Some k2 =>
      match align_series k1 k2 with
      | Some (common_ts, series1, series2) =>
          let spreads := calc_spread_list series1 series2 coef in
          Report <$> sweep fuel cfg spreads
      | None => Some Raised
      end
  | _, _ => Some Raised
  end.

Definition analyze_pair (p1_sym p2_sym : string) (coef : F)
  (klines_cache : gmap string (list (Z * F))) (w : World)
  : option (outcome F) * gmap string (list (Z * F)) * World :=
  match fetch_cached p1_sym klines_cache w with
  | (None, w1) => (Some NoData, klines_cache, w1)
  | (Some cache1, w1) =>
      match fetch_cached p2_sym cache1 w1 with
      | (None, w2) => (Some NoData, cache1, w2)
      | (Some cache2, w2) =>
          (analyze_series (cache2 !! p1_sym) (cache2 !! p2_sym) coef,
           cache2, w2)
      end
  end.

(** The state of [main]'s loop. *)
Record MainState : Type := {
  klines_cache : gmap string (list (Z * F));
  analysis : gmap string (list (CycleResult F));
  world : World
}.

(** The key [f"{p1}-{p2}"]. *)
Definition pair_key (p1 p2 : string) : string := p1 +:+ "-" +:+ p2.

(** One iteration of [for p1, info in pairs.items()]. *)
Definition main_step (st : MainState) (entry : string * PairInfo F)
  : option MainState :=
  let '(p1, info) := entry in
  let p2 := pair2 info in
  let c := default (lit 1) (coef info) in
  match analyze_pair p1 p2 c (klines_cache st) (world st) with
  | (None, _, _) => None
  | (Some NoData, cache', w') =>
      Some {| klines_cache := cache'; analysis := analysis st;
              world := w' |}
  | (Some (Report res), cache', w') =>
      Some {| klines_cache := cache';
              analysis := <[pair_key p1 p2 := res]> (analysis st);
              world := w' |}
  | (Some Raised, cache', w') =>
      Some {| klines_cache := cache'; analysis := analysis st;
              world := w' |}
  end.

Fixpoint main_loop (pairs : list (string * PairInfo F)) (st : MainState)
  : option MainState :=
  match pairs with
  | [] => Some st
  | entry :: rest =>
      match main_step st entry with
      | None => None
      | Some st' => main_loop rest st'
      end
  end.

(** [main]: the loop from the empty cache and the empty report. *)
Definition main (pairs : list (string * PairInfo F)) (w : World)
  : option MainState :=
  main_loop pairs {| klines_cache := ∅; analysis := ∅; world := w |}.
End Orchestrator.

(** *** The live monitor ([check_pairs_loop] of bot.py) *)

(** [state.json]: a status per pair key and, under ["cycles"], the list of
    close times per pair key. *)
Record BotState : Type := {
  status : gmap string string;
  cycle_log : gmap string (list Z)
}.

Section Monitor.
Context {F : Type} `{PyNum F}.
Local Open Scope py_scope.

(** [state.get(key, "inactive")]. *)
Definition current_status (key : string) (state : BotState) : string :=
  default "inactive" (status state !! key).

(** One poll of one pair, from [current = state.get(key, "inactive")]
    on; [now] is [int(time.time())]. *)
Definition monitor_step (key : string) (open_spread close_spread : F)
  (state : BotState) (tick : F * Z) : BotState :=
  let '(spread, now) := tick in
  let current := current_status key state in
  if String.eqb current "inactive" && (spread >=? open_spread) then
    {| status := <[key := "active"]> (status state);
       cycle_log := cycle_log state |}
  else if String.eqb current "active" && (spread <=? close_spread) then
    {| status := <[key := "inactive"]> (status state);
       cycle_log :=
         <[key := default [] (cycle_log state !! key) ++ [now]]>
           (cycle_log state) |}
  else state.

Definition monitor_run (key : string) (open_spread close_spread : F)
  (state : BotState) (ticks : list (F * Z)) : BotState :=
  fold_left (monitor_step key open_spread close_spread) ticks state.

(** The cycles recorded for a pair. *)
Definition recorded_cycles (key : string) (state : BotState) : nat :=
  length (default [] (cycle_log state !! key)).
End Monitor.

(** ** The specification's detector

    The state machine as the specification words it: two states, four
    rules, a run over the sequence. *)

Inductive DetectorState : Type := WaitingOpen | WaitingClose.

Section Detector.
Context {F : Type} `{PyNum F}.
Local Open Scope py_scope.
Variables openThreshold closeThreshold : F.

Inductive detector_step
  : DetectorState * nat -> F -> DetectorState * nat -> Prop :=
| step_open s n :
    (s >=? openThreshold) = true ->
    detector_step (WaitingOpen, n) s (WaitingClose, n)
| step_wait_open s n :
    (s >=? openThreshold) = false ->
    detector_step (WaitingOpen, n) s (WaitingOpen, n)
| step_close s n :
    (s <=? closeThreshold) = true ->
    detector_step (WaitingClose, n) s (WaitingOpen, S n)
| step_wait_close s n :
    (s <=? closeThreshold) = false ->
    detector_step (WaitingClose, n) s (WaitingClose, n).

Inductive detector_run
  : DetectorState * nat -> list F -> DetectorState * nat -> Prop :=
| run_nil st : detector_run st [] st
| run_cons st s st' l st'' :
    detector_step st s st' ->
    detector_run st' l st'' ->
    detector_run st (s :: l) st''.
End Detector.

(** The rules read as a function, and the weight [2 * count + pending] of
    a detector state, which a step raises by at most one. *)
Section DetectorFunction.
Context {F : Type} `{PyNum F}.
Local Open Scope py_scope.

Definition detector_next (openThreshold closeThreshold : F)
  (st : DetectorState * nat) (s : F) : DetectorState * nat :=
  match st with
  | (WaitingOpen, n) =>
      if s >=? openThreshold then (WaitingClose, n) else (WaitingOpen, n)
  | (WaitingClose, n) =>
      if s <=? closeThreshold then (WaitingOpen, S n) else (WaitingClose, n)
  end.

Definition state_name (d : DetectorState) : string :=
  match d with
  | WaitingOpen => "waiting_open"
  | WaitingClose => "waiting_close"
  end.

Definition status_name (d : DetectorState) : string :=
  match d with
  | WaitingOpen => "inactive"
  | WaitingClose => "active"
  end.

Definition weight (st : DetectorState * nat) : nat :=
  match st with
  | (WaitingOpen, n) => 2 * n
  | (WaitingClose, n) => 2 * n + 1
  end.
End DetectorFunction.

(** ** Notions of the specification and sample data *)

(** The scaled pair as the specification words it: only the cheaper
    price is multiplied by the coefficient; of two equal prices the code
    scales the second. *)
Definition cheaper_scaled {F : Type} `{PyNum F} (coef pa pb pa' pb' : F)
  : Prop :=
  ((pa <? pb)%py = true /\ pa' = (pa * coef)%py /\ pb' = pb) \/
  ((pb <=? pa)%py = true /\ pa' = pa /\ pb' = (pb * coef)%py).

(** [|pa' - pb'| / ((pa' + pb') / 2) * 100]. *)
Definition spread_percent {F : Type} `{PyNum F} (pa' pb' : F) : F :=
  (num_abs (pa' - pb') / ((pa' + pb') / lit 2) * lit 100)%py.

(** The value the loop body computes from a scaled pair. *)
Definition spread_value {F : Type} `{PyNum F} (x y : F) : F :=
  let denom := ((x + y) / lit 2)%py in
  if (denom =? lit 0)%py then lit 0
  else (num_abs (x - y) / denom * lit 100)%py.

(** A binary64 number that is not below zero: a NaN, a zero of either
    sign, or a positive number; and one that is above zero or a NaN. *)
Definition SF_not_negative (x : spec_float) : bool :=
  match x with
  | S754_infinity s | S754_finite s _ _ => negb s
  | _ => true
  end.

Definition SF_positive_or_nan (x : spec_float) : bool :=
  match x with
  | S754_nan => true
  | S754_zero _ => false
  | S754_infinity s | S754_finite s _ _ => negb s
  end.

(** A binary64 spread that is not below zero: at least 0, or NaN. *)
Definition not_below_zero (x : float) : Prop :=
  (lit 0 <=? x)%py = true \/ PrimFloat.is_nan x = true.

(** The timestamps [align_series] returns. *)
Definition common_timestamps {F : Type} (a b : list (Z * F)) : list Z :=
  merge_sort Z.le
    (elements (dom (dict_of_points a) ∩ dom (dict_of_points b))).

Section SweepNotions.
Context {F : Type} `{PyNum F}.

(** A grid point with its cycle count, and the results the sweep retains
    from a list of grid points. *)
Definition scored (spreads : list F) (oc : F * F) : F * F * nat :=
  (oc.1, oc.2, count_cycles_for_thresholds spreads oc.1 oc.2).

Definition retained (spreads : list F) (g : list (F * F))
  : list (F * F * nat) :=
  filter (fun r => (0 < r.2)%nat) (scored spreads <$> g).

(** A record of the report without the rounding to two decimals. *)
Definition plain_entry (r : F * F * nat) : CycleResult F :=
  {| open := r.1.1; close := r.1.2; cycles := r.2 |}.

(** The order of the report: decreasing cycle count. *)
Definition by_cycles_desc (r1 r2 : F * F * nat) : Prop := (r2.2 <= r1.2)%nat.

(** The module constants of analyzer.py. *)
Definition default_config : SweepConfig F :=
  {| OPEN_MIN := lit 4; OPEN_MAX := lit 30;
     OPEN_STEP := lit (1 # 2); CLOSE_STEP := lit (1 # 2) |}.

(** The configuration of the specification's scenario: [open] from 4 to
    5 in steps of 0.5, [close] in steps of 0.5 (the gap, 4.0, is the
    literal of the loop). *)
Definition scenario_config : SweepConfig F :=
  {| OPEN_MIN := lit 4; OPEN_MAX := lit 5;
     OPEN_STEP := lit (1 # 2); CLOSE_STEP := lit (1 # 2) |}.

(** The scenario of the specification: [1, 5, 6, 2, 0.5, 7, 1]. *)
Definition scenario_series : list F :=
  map lit [1; 5; 6; 2; 1 # 2; 7; 1]%Q.
End SweepNotions.

Definition scenario_grid : list (float * float) :=
  [(4%float, 0%float); (4.5%float, 0%float); (4.5%float, 0.5%float);
   (5%float, 0%float); (5%float, 0.5%float); (5%float, 1%float)].

(** The grid of the module constants, on binary64: 53 values of [open]
    from 4.0 to 30.0 and, for each, the values of [close] from 0.0 to
    [open - 4.0], 1431 pairs in all. *)
Definition default_grid : list (float * float) :=
  Eval vm_compute in
    match grid 120 (default_config (F := float)) with
    | Some g => g
    | None => []
    end.

(** Ascending [open], then ascending [close]: each grid point comes
    before the next one in this order. *)
Definition visited_before (x y : float * float) : bool :=
  (x.1 <? y.1)%float || ((x.1 =? y.1)%float && (x.2 <? y.2)%float).

Fixpoint ascending_grid (g : list (float * float)) : bool :=
  match g with
  | x :: (y :: _) as g' => visited_before x y && ascending_grid g'
  | _ => true
  end.

(** A grid in steps of 0.125: [open] from 4 to 4.125. *)
Definition eighths_config : SweepConfig float :=
  {| OPEN_MIN := lit 4; OPEN_MAX := lit (33 # 8);
     OPEN_STEP := lit (1 # 8); CLOSE_STEP := lit (1 # 8) |}.

Section FetchFailure.
Context {F : Type} {World : Type}.
Variable fetch : string -> World -> option (list (Z * F)) * World.

(** Fetching fails for one of the two assets of a combination: for the
    first, or for the second after the first was found in the cache or
    fetched. The last two arguments are the cache and the world the
    attempt leaves. *)
Inductive fetch_fails (p1 p2 : string)
  (cache : gmap string (list (Z * F))) (w : World)
  : gmap string (list (Z * F)) -> World -> Prop :=
| fails_first w1 :
    cache !! p1 = None ->
    fetch p1 w = (None, w1) ->
    fetch_fails p1 p2 cache w cache w1
| fails_second cache1 w1 w2 :
    fetch_cached fetch p1 cache w = (Some cache1, w1) ->
    cache1 !! p2 = None ->
    fetch p2 w1 = (None, w2) ->
    fetch_fails p1 p2 cache w cache1 w2.

(** The key under which a combination is stored. *)
Definition entry_key (entry : string * PairInfo F) : string :=
  pair_key entry.1 (pair2 entry.2).
End FetchFailure.

(** A data source that fails for one symbol and counts its calls, and a
    [pairs.json] with a combination that needs that symbol. *)
Definition sample_source (symbol : string) (calls : nat)
  : option (list (Z * float)) * nat :=
  (if String.eqb symbol "DOWNUSDT" then None
   else Some [(1%Z, lit 100); (2%Z, lit 104); (3%Z, lit 100)],
   S calls).

Definition sample_pairs : list (string * PairInfo float) :=
  [("AUSDT", {| pair2 := "DOWNUSDT"; coef := None |});
   ("BUSDT", {| pair2 := "AUSDT"; coef := Some (lit (21 # 20)) |})].

(** ** More of the program *)

(** *** [fetch_klines_close]: the rows of the reply

    The HTTP call and the JSON decoding stay outside; [int(row[0])] and
    [float(row[4])] are taken as functions that may raise.  Any exception
    inside the [try] makes the whole call return [None]. *)
Section Klines.
Context {F J : Type}.
Variable to_int : J -> option Z.
Variable to_float : J -> option F.

Definition kline_point (row : list J) : option (Z * F) :=
  match row !! 0%nat, row !! 4%nat with
  | Some r0, Some r4 =>
      match to_int r0 with
      | Some ts =>
          match to_float r4 with
          | Some close_price => Some (ts, close_price)
          | None => None
          end
      | None => None
      end
  | _, _ => None
  end.

(** From [res = []] to [return res]. *)
Definition klines_of_rows (data : list (list J)) : option (list (Z * F)) :=
  mapM kline_point data.
End Klines.

(** *** The live spread and one poll of a pair ([check_pairs_loop]) *)

Inductive AlertKind : Type := Opening | Closing.

(** What a broadcast message says: opening or closing, the spread, and
    the LONG and SHORT names. *)
Record Alert (F : Type) : Type := {
  alert_kind : AlertKind;
  alert_spread : F;
  alert_long : string;
  alert_short : string
}.
Arguments alert_kind {F} _.
Arguments alert_spread {F} _.
Arguments alert_long {F} _.
Arguments alert_short {F} _.

Section LivePoll.
Context {F : Type} `{PyNum F}.
Local Open Scope py_scope.

(** [x / y] on floats: [None] stands for [ZeroDivisionError]. *)
Definition truediv (x y : F) : option F :=
  if y =? lit 0 then None else Some (x / y).

(** [calc_spread] of bot.py: the bare [except] turns the exception into
    0.0. *)
Definition calc_spread (p1 p2 : F) : F :=
  match truediv (num_abs (p1 - p2)) ((p1 + p2) / lit 2) with
  | Some q => q * lit 100
  | None => lit 0
  end.

Definition get_direction_names (p1_name : string) (p1_price : F)
  (p2_name : string) (p2_price : F) : string * string :=
  if p2_price <? p1_price then (p2_name, p1_name) else (p1_name, p2_name).

(** The body of [for p1, info in pairs.items()] for one pair: the two
    prices ([None] when [get_price] gave up), the scaling, the spread,
    the transition and the message that is broadcast. *)
Definition check_pair (p1 p2 : string) (coef open_spread close_spread : F)
  (state : BotState) (price1 price2 : option F) (now : Z)
  : BotState * option (Alert F) :=
  let key := pair_key p1 p2 in
  match price1, price2 with
  | Some price1, Some price2 =>
      let '(scaled1, scaled2) :=
        if price1 <? price2 then (price1 * coef, price2)
        else (price1, price2 * coef) in
      let spread := calc_spread scaled1 scaled2 in
      let '(long_name, short_name) :=
        get_direction_names p1 scaled1 p2 scaled2 in
      let current := current_status key state in
      if String.eqb current "inactive" && (spread >=? open_spread) then
        ({| status := <[key := "active"]> (status state);
            cycle_log := cycle_log state |},
         Some {| alert_kind := Opening; alert_spread := spread;
                 alert_long := long_name; alert_short := short_name |})
      else if String.eqb current "active" && (spread <=? close_spread) then
        ({| status := <[key := "inactive"]> (status state);
            cycle_log :=
              <[key := default [] (cycle_log state !! key) ++ [now]]>
                (cycle_log state) |},
         Some {| alert_kind := Closing; alert_spread := spread;
                 alert_long := long_name; alert_short := short_name |})
      else (state, None)
  | _, _ => (state, None)
  end.

(** The polls of one pair, one after the other: each is the two prices
    and the time; the messages come out in order. *)
Fixpoint check_pair_run (p1 p2 : string) (coef open_spread close_spread : F)
  (state : BotState) (polls : list (option F * option F * Z))
  : BotState * list (Alert F) :=
  match polls with
  | [] => (state, [])
  | (price1, price2, now) :: rest =>
      let '(state', msg) :=
        check_pair p1 p2 coef open_spread close_spread state
          price1 price2 now in
      let '(state'', msgs) :=
        check_pair_run p1 p2 coef open_spread close_spread state' rest in
      (state'', match msg with Some m => m :: msgs | None => msgs end)
  end.
End LivePoll.

(** *** The [/spread] command of the webhook *)

(** [list.sort(key=..., reverse=True)] for any key: stable, decreasing. *)
Fixpoint insert_desc {A : Type} (key : A -> nat) (x : A) (l : list A)
  : list A :=
  match l with
  | [] => [x]
  | y :: l' =>
      if (key x <? key y)%nat then y :: insert_desc key x l'
      else x :: y :: l'
  end.

Definition sort_desc {A : Type} (key : A -> nat) (l : list A) : list A :=
  foldr (insert_desc key) [] l.

(** [sum(1 for t in arr if t >= limit)]. *)
Definition count_since (limit : Z) (arr : list Z) : nat :=
  length (filter (fun t => (limit <= t)%Z) arr).

(** The ranking the command sends: [cycles] is [state["cycles"].items()],
    in the dictionary's order. *)
Definition spread_ranking (cycles : list (string * list Z)) (now : Z)
  : list (string * nat) :=
  let limit := (now - 30 * 24 * 3600)%Z in
  sort_desc snd (map (fun '(key, arr) => (key, count_since limit arr)) cycles).

(** ** Notions of the further properties, and their sample data *)

(** The range and the gap of a threshold pair: [4 <= open <= 30],
    [close >= 0] and [close + 4 <= open]. *)
Definition threshold_pair_ok (oc : float * float) : bool :=
  ((lit 4 <=? oc.1) && (oc.1 <=? lit 30) && (lit 0 <=? oc.2)
   && (oc.2 + lit 4 <=? oc.1))%py.

Section ReportInvariant.
Context {F : Type} {World : Type}.
Implicit Types (st : MainState (F := F) (World := World)).
Implicit Types (pairs : list (string * PairInfo F)).

(** The report [main] builds: every key is the key of a configured
    combination, and every list under a key has at most 5 records, each
    with a positive cycle count. *)
Definition report_ok pairs st : Prop :=
  forall k report, analysis st !! k = Some report ->
    (exists e, e ∈ pairs /\ entry_key e = k) /\
    (length report <= 5)%nat /\
    Forall (fun r => (0 < cycles r)%nat) report.

End ReportInvariant.

(** A source that answers by a fixed table and appends every symbol it
    is asked for to a log. *)
Definition logged_source {F : Type} (table : string -> option (list (Z * F)))
  (symbol : string) (log : list string)
  : option (list (Z * F)) * list string :=
  (table symbol, log ++ [symbol]).

Section FetchLog.
Context {F : Type}.
Variable table : string -> option (list (Z * F)).
Implicit Types (cache : gmap string (list (Z * F))) (log : list string).

Definition calls (s : string) log : nat :=
  length (filter (fun x => x = s) log).

(** What holds of the cache and the log all along a run. *)
Definition cache_log_ok cache log : Prop :=
  (forall s kl, cache !! s = Some kl -> table s = Some kl) /\
  (forall s, is_Some (table s) -> s ∈ log -> is_Some (cache !! s)) /\
  (forall s, is_Some (table s) -> (calls s log <= 1)%nat).

End FetchLog.

Section LiveNotions.
Context {F : Type} `{PyNum F}.
Local Open Scope py_scope.

(** The polls in which both prices arrived. *)
Definition complete_polls (polls : list (option F * option F * Z))
  : list (F * F * Z) :=
  omap (fun poll =>
          match poll with
          | (Some price1, Some price2, now) => Some (price1, price2, now)
          | _ => None
          end) polls.

Definition other_kind (k : AlertKind) : AlertKind :=
  match k with Opening => Closing | Closing => Opening end.

(** The kinds alternate, beginning with [expected]. *)
Fixpoint alternates (expected : AlertKind) (kinds : list AlertKind) : Prop :=
  match kinds with
  | [] => True
  | k :: rest => k = expected /\ alternates (other_kind expected) rest
  end.

(** The spread in a message is on the side of the threshold that the
    message announces. *)
Definition alert_justified (open_spread close_spread : F) (m : Alert F)
  : Prop :=
  match alert_kind m with
  | Opening => (alert_spread m >=? open_spread) = true
  | Closing => (alert_spread m <=? close_spread) = true
  end.

Definition is_closing (m : Alert F) : bool :=
  match alert_kind m with Closing => true | Opening => false end.

Definition kind_after (d : DetectorState) : AlertKind :=
  match d with WaitingOpen => Opening | WaitingClose => Closing end.

Definition flip_state (d : DetectorState) : DetectorState :=
  match d with WaitingOpen => WaitingClose | WaitingClose => WaitingOpen end.

End LiveNotions.

(** A data source with two symbols, a [pairs.json] that uses both in
    either order and then asks for a third, unknown one, and the state
    in which [main] ends on them. *)
Definition sample_table (symbol : string) : option (list (Z * float)) :=
  if String.eqb symbol "AUSDT" then
    Some [(1%Z, lit 100); (2%Z, lit 100); (3%Z, lit 100); (4%Z, lit 100)]
  else if String.eqb symbol "BUSDT" then
    Some [(1%Z, lit 100); (2%Z, lit 105); (3%Z, lit 100); (4%Z, lit 106)]
  else None.

Definition sample_run_pairs : list (string * PairInfo float) :=
  [("AUSDT", {| pair2 := "BUSDT"; coef := None |});
   ("BUSDT", {| pair2 := "AUSDT"; coef := None |});
   ("AUSDT", {| pair2 := "CUSDT"; coef := None |})].

Definition sample_report : list (CycleResult float) :=
  [{| open := 4%float; close := 0%float; cycles := 1 |};
   {| open := 4.5%float; close := 0%float; cycles := 1 |};
   {| open := 4.5%float; close := 0.5%float; cycles := 1 |}].

Definition sample_end : MainState (F := float) (World := list string) :=
  {| klines_cache :=
       <["BUSDT" := [(1%Z, lit 100); (2%Z, lit 105); (3%Z, lit 100);
                     (4%Z, lit 106)]]>
         {["AUSDT" := [(1%Z, lit 100); (2%Z, lit 100); (3%Z, lit 100);
                       (4%Z, lit 100)]]};
     analysis :=
       <["BUSDT-AUSDT" := sample_report]>
         {["AUSDT-BUSDT" := sample_report]};
     world := ["AUSDT"; "BUSDT"; "CUSDT"] |}.

(** Polls of one pair: the spread opens at the second, the third has no
    first price, the fourth closes, the fifth opens again. *)
Definition sample_polls : list (option float * option float * Z) :=
  [(Some (lit 100), Some (lit 100), 10%Z);
   (Some (lit 100), Some (lit 106), 20%Z);
   (None, Some (lit 100), 30%Z);
   (Some (lit 100), Some (lit 100), 40%Z);
   (Some (lit 110), Some (lit 100), 50%Z)].

Definition sample_bot_state : BotState := {| status := ∅; cycle_log := ∅ |}.

Definition paused_bot_state : BotState :=
  {| status := {["AUSDT-BUSDT" := "paused"]}; cycle_log := ∅ |}.

(** Rows whose fields are integers; a negative field 4 is no price. *)
Definition sample_to_float (field : Z) : option Q :=
  if (field <? 0)%Z then None else Some (inject_Z field).

(** ** Properties of the detector *)

Section DetectorFacts.
Context {F : Type} `{PyNum F}.
Local Open Scope py_scope.
Implicit Types (d : DetectorState) (n : nat) (s : F) (l : list F).

Lemma detector_step_next o c st s st' :
  detector_step o c st s st' <-> detector_next o c st s = st'.
Proof.
  split.
  - intros Hstep. destruct Hstep as [s n E|s n E|s n E|s n E];
      simpl; rewrite E; reflexivity.
  - intros <-. destruct st as [[|] n]; simpl.
    + destruct (s >=? o) eqn:E; [apply step_open|apply step_wait_open];
        exact E.
    + destruct (s <=? c) eqn:E; [apply step_close|apply step_wait_close];
        exact E.
Qed.

Lemma detector_run_fold o c l : forall st st',
  detector_run o c st l st' <-> fold_left (detector_next o c) l st = st'.
Proof.
  induction l as [|s l IH]; intros st st'; simpl.
  - split.
    + intros Hrun. inversion Hrun. reflexivity.
    + intros <-. apply run_nil.
  - split.
    + intros Hrun. inversion Hrun as [|? ? st1 ? ? Hstep Hrest]; subst.
      apply detector_step_next in Hstep. subst st1.
      apply IH. exact Hrest.
    + intros Hfold. apply run_cons with (st' := detector_next o c st s).
      * apply detector_step_next. reflexivity.
      * apply IH. exact Hfold.
Qed.

(** The loop of [count_cycles_for_thresholds] follows the rules step by
    step, its string naming the detector's state. *)
Lemma cycle_step_next o c d n s :
  cycle_step o c (state_name d, n) s =
  (state_name (detector_next o c (d, n) s).1,
   (detector_next o c (d, n) s).2).
Proof.
  destruct d; simpl.
  - destruct (s >=? o); reflexivity.
  - destruct (s <=? c); reflexivity.
Qed.

Lemma cycle_fold_next o c l : forall d n,
  fold_left (cycle_step o c) l (state_name d, n) =
  (state_name (fold_left (detector_next o c) l (d, n)).1,
   (fold_left (detector_next o c) l (d, n)).2).
Proof.
  induction l as [|s l IH]; intros d n.
  - reflexivity.
  - cbn [fold_left]. rewrite cycle_step_next.
    destruct (detector_next o c (d, n) s) as [d' n']. apply IH.
Qed.

Lemma count_cycles_fold l o c :
  count_cycles_for_thresholds l o c =
  (fold_left (detector_next o c) l (WaitingOpen, 0%nat)).2.
Proof.
  unfold count_cycles_for_thresholds.
  change "waiting_open" with (state_name WaitingOpen).
  rewrite cycle_fold_next. reflexivity.
Qed.

Lemma weight_next_le o c st s :
  (weight (detector_next o c st s) <= weight st + 1)%nat.
Proof.
  destruct st as [[|] n]; simpl.
  - destruct (s >=? o); simpl; lia.
  - destruct (s <=? c); simpl; lia.
Qed.

Lemma weight_next_ge o c st s :
  (weight st <= weight (detector_next o c st s))%nat.
Proof.
  destruct st as [[|] n]; simpl.
  - destruct (s >=? o); simpl; lia.
  - destruct (s <=? c); simpl; lia.
Qed.

Lemma weight_inj st st' : weight st = weight st' -> st = st'.
Proof.
  destruct st as [[|] n], st' as [[|] n']; simpl; intros E;
    first [f_equal; lia | exfalso; lia].
Qed.

Lemma weight_fold_le o c l : forall st,
  (weight (fold_left (detector_next o c) l st) <= weight st + length l)%nat.
Proof.
  induction l as [|s l IH]; intros st; simpl.
  - lia.
  - specialize (IH (detector_next o c st s)).
    pose proof (weight_next_le o c st s). lia.
Qed.

Lemma count_le_weight st : (2 * st.2 <= weight st)%nat.
Proof. destruct st as [[|] n]; simpl; lia. Qed.

(** A stricter open threshold never gets the detector ahead. *)
Lemma weight_next_antitone `{!PyOrder F} o1 o2 c st1 st2 s :
  (o1 <=? o2) = true ->
  (weight st2 <= weight st1)%nat ->
  (weight (detector_next o2 c st2 s)
   <= weight (detector_next o1 c st1 s))%nat.
Proof.
  intros Ho Hw.
  destruct (Nat.eq_dec (weight st2) (weight st1)) as [E|E].
  - apply weight_inj in E. subst st2.
    destruct st1 as [[|] n]; simpl.
    + destruct (s >=? o2) eqn:E2.
      * rewrite (num_leb_trans o1 o2 s Ho E2). simpl. lia.
      * destruct (s >=? o1); simpl; lia.
    + destruct (s <=? c); simpl; lia.
  - pose proof (weight_next_le o2 c st2 s).
    pose proof (weight_next_ge o1 c st1 s). lia.
Qed.

Lemma weight_fold_antitone `{!PyOrder F} o1 o2 c l : forall st1 st2,
  (o1 <=? o2) = true ->
  (weight st2 <= weight st1)%nat ->
  (weight (fold_left (detector_next o2 c) l st2)
   <= weight (fold_left (detector_next o1 c) l st1))%nat.
Proof.
  induction l as [|s l IH]; intros st1 st2 Ho Hw; simpl.
  - exact Hw.
  - apply IH; [exact Ho|]. apply weight_next_antitone; assumption.
Qed.
End DetectorFacts.

(** [<=] is transitive on the rationals and on binary64 (where a NaN
    compares false with everything). *)
#[export] Instance Q_PyOrder : PyOrder Q.
Proof.
  intros x y z Hxy Hyz. cbn in *.
  apply Qle_bool_iff in Hxy, Hyz. apply Qle_bool_iff.
  eapply Qle_trans; eassumption.
Qed.

Lemma SFleb_trans x y z :
  SFleb x y = true -> SFleb y z = true -> SFleb x z = true.
Proof.
  unfold SFleb, SFcompare.
  destruct x as [[|]|[|]| |[|] mx ex], y as [[|]|[|]| |[|] my ey],
    z as [[|]|[|]| |[|] mz ez];
    try reflexivity; try discriminate;
    change (Pos.compare_cont Eq) with Pos.compare;
    repeat match goal with
      | |- context [(?a ?= ?b)%Z] => destruct (Z.compare_spec a b)
      | |- context [(?a ?= ?b)%positive] => destruct (Pos.compare_spec a b)
      end;
    cbn; intros; try reflexivity; try discriminate; exfalso; lia.
Qed.

#[export] Instance float_PyOrder : PyOrder float.
Proof.
  intros x y z. cbn. rewrite !FloatAxioms.leb_spec. apply SFleb_trans.
Qed.

(** ** Properties of the live monitor *)

Section MonitorFacts.
Context {F : Type} `{PyNum F}.
Local Open Scope py_scope.

(** A poll moves the monitor as a step moves the detector: the status
    names the detector's state and a cycle is logged exactly when the
    detector counts one. *)
Lemma monitor_step_next key o c state d n s now :
  current_status key state = status_name d ->
  current_status key (monitor_step key o c state (s, now)) =
    status_name (detector_next o c (d, n) s).1 /\
  (recorded_cycles key (monitor_step key o c state (s, now)) + n =
   recorded_cycles key state + (detector_next o c (d, n) s).2)%nat.
Proof.
  unfold recorded_cycles, monitor_step, current_status. intros Hst.
  rewrite Hst. destruct d; simpl.
  - destruct (s >=? o); simpl.
    + rewrite lookup_insert_eq. split; reflexivity.
    + rewrite Hst. split; reflexivity.
  - destruct (s <=? c); simpl.
    + rewrite !lookup_insert_eq. simpl. rewrite length_app. simpl.
      split; [reflexivity|lia].
    + rewrite Hst. split; reflexivity.
Qed.

Lemma monitor_run_next key o c ticks : forall state d n,
  current_status key state = status_name d ->
  current_status key (monitor_run key o c state ticks) =
    status_name (fold_left (detector_next o c) ticks.*1 (d, n)).1 /\
  (recorded_cycles key (monitor_run key o c state ticks) + n =
   recorded_cycles key state
   + (fold_left (detector_next o c) ticks.*1 (d, n)).2)%nat.
Proof.
  induction ticks as [|[s now] ticks IH]; intros state d n Hst.
  - simpl. split; [exact Hst|lia].
  - cbn [monitor_run fold_left fmap list_fmap fst].
    destruct (monitor_step_next key o c state d n s now Hst) as [Hs Hc].
    destruct (detector_next o c (d, n) s) as [d' n'] eqn:E.
    destruct (IH _ d' n' Hs) as [Hs' Hc'].
    fold (monitor_run key o c (monitor_step key o c state (s, now)) ticks).
    split; [exact Hs'|]. cbn [snd] in Hc. lia.
Qed.
End MonitorFacts.

(** ** The claims about the detector *)

(** C1, as stated, fails on the scenario: with open = 4 and close = 1 the
    last value, 1, is at most the close threshold and closes a second
    cycle, so the code returns 2 and not 1 (on binary64 and on the
    rationals alike). *)
Lemma scenario_does_not_count_one :
  count_cycles_for_thresholds (F := float) scenario_series (lit 4) (lit 1)
    <> 1%nat /\
  count_cycles_for_thresholds (F := Q) scenario_series (lit 4) (lit 1)
    <> 1%nat.
Proof. split; vm_compute; discriminate. Qed.

(** C1 (amended): [count_cycles_for_thresholds] is exactly the two-state
    detector of the specification: its result is [n] if and only if the
    run of the detector from [WaitingOpen] with count 0 over the sequence
    ends with count [n], whatever state it ends in (a pending
    [WaitingClose] is dropped).  On [1, 5, 6, 2, 0.5, 7, 1] with open = 4
    and close = 1 it returns 2, and on the empty sequence 0. *)
Theorem count_cycles_is_two_state_detector :
  (forall (F : Type) (N : PyNum F) (spreads : list F) (o c : F) (n : nat),
      count_cycles_for_thresholds spreads o c = n <->
      exists st, detector_run o c (WaitingOpen, 0%nat) spreads (st, n)) /\
  count_cycles_for_thresholds (F := float) scenario_series (lit 4) (lit 1)
    = 2%nat /\
  count_cycles_for_thresholds (F := Q) scenario_series (lit 4) (lit 1)
    = 2%nat /\
  (forall (F : Type) (N : PyNum F) (o c : F),
      count_cycles_for_thresholds [] o c = 0%nat).
Proof.
  split; [|split; [|split]].
  - intros F N spreads o c n. rewrite count_cycles_fold. split.
    + intros <-.
      exists (fold_left (detector_next o c) spreads (WaitingOpen, 0%nat)).1.
      apply detector_run_fold.
      destruct (fold_left _ _ _); reflexivity.
    + intros [st Hrun]. apply detector_run_fold in Hrun.
      rewrite Hrun. reflexivity.
  - vm_compute. reflexivity.
  - vm_compute. reflexivity.
  - reflexivity.
Qed.

(** C3: for a fixed close threshold the count is antitone in the open
    threshold: if [open1 <= open2] then the count for [open2] is at most
    the count for [open1], on every number type whose [<=] is
    transitive. *)
Theorem count_cycles_antitone_in_open
  {F : Type} `{PyNum F} `{!PyOrder F}
  (spreads : list F) (open1 open2 close_thr : F) :
  (open1 <=? open2)%py = true ->
  (count_cycles_for_thresholds spreads open2 close_thr
   <= count_cycles_for_thresholds spreads open1 close_thr)%nat.
Proof.
  intros Ho. rewrite !count_cycles_fold.
  pose proof (weight_fold_antitone open1 open2 close_thr spreads
                (WaitingOpen, 0%nat) (WaitingOpen, 0%nat) Ho (le_n _)) as Hw.
  destruct (fold_left (detector_next open2 close_thr) spreads _)
    as [[|] n2];
    destruct (fold_left (detector_next open1 close_thr) spreads _)
      as [[|] n1];
    simpl in *; lia.
Qed.

Lemma count_cycles_antitone_in_open_witness :
  ((lit 4 : float) <=? lit 5)%py = true /\
  (count_cycles_for_thresholds (F := float) scenario_series (lit 5) (lit 1)
   <= count_cycles_for_thresholds scenario_series (lit 4) (lit 1))%nat.
Proof.
  split; [reflexivity|].
  apply (count_cycles_antitone_in_open (F := float)). reflexivity.
Defined.

(** C4: the count is a natural number and at most half the length of
    the sequence, rounded down. *)
Theorem count_cycles_at_most_half_length :
  forall (F : Type) (N : PyNum F) (spreads : list F) (o c : F),
    (count_cycles_for_thresholds spreads o c <= length spreads / 2)%nat.
Proof.
  intros F N spreads o c. rewrite count_cycles_fold.
  pose proof (weight_fold_le o c spreads (WaitingOpen, 0%nat)) as Hw.
  pose proof (count_le_weight
                (fold_left (detector_next o c) spreads (WaitingOpen, 0%nat)))
    as Hc.
  simpl in Hw. apply Nat.div_le_lower_bound; lia.
Qed.

(** C8: a monitor that starts inactive for a pair and polls a finite
    sequence of spreads records as many cycles as
    [count_cycles_for_thresholds] counts on that sequence with the same
    thresholds. *)
Theorem monitor_records_count_cycles
  {F : Type} `{PyNum F} (key : string) (open_spread close_spread : F)
  (state : BotState) (ticks : list (F * Z)) :
  current_status key state = "inactive" ->
  recorded_cycles key (monitor_run key open_spread close_spread state ticks)
  = (recorded_cycles key state
     + count_cycles_for_thresholds ticks.*1 open_spread close_spread)%nat.
Proof.
  intros Hst. rewrite count_cycles_fold.
  destruct (monitor_run_next key open_spread close_spread ticks state
              WaitingOpen 0 Hst) as [_ Hc].
  lia.
Qed.

Lemma monitor_records_count_cycles_witness :
  let state := {| status := ∅; cycle_log := ∅ |} in
  let ticks : list (float * Z) :=
    [(lit 5, 100%Z); (lit 6, 110%Z); (lit (1 # 2), 120%Z); (lit 7, 130%Z);
     (lit 1, 140%Z)] in
  current_status "AUSDT-BUSDT" state = "inactive" /\
  recorded_cycles "AUSDT-BUSDT"
    (monitor_run "AUSDT-BUSDT" (lit 4) (lit 1) state ticks) = 2%nat.
Proof.
  split; [reflexivity|].
  exact (monitor_records_count_cycles (F := float) "AUSDT-BUSDT"
           (lit 4) (lit 1) {| status := ∅; cycle_log := ∅ |} _ eq_refl).
Defined.

(** ** The spread on binary64

    The prices, the coefficient and the spreads are binary64 numbers.
    What follows is proved about the kernel's floats through their
    specification ([Prim2SF] and the operations of [SpecFloat]), so
    rounding, overflow, underflow and NaN are all in the statements. *)

Section Binary64.
Local Open Scope py_scope.

(** *** Comparisons *)

Lemma SFcompare_antisym x y :
  SFcompare y x = option_map CompOpp (SFcompare x y).
Proof.
  destruct x as [[|]|[|]| |[|] mx ex], y as [[|]|[|]| |[|] my ey];
    try reflexivity; simpl;
    change (Pos.compare_cont Eq) with Pos.compare;
    rewrite (Z.compare_antisym ex ey), (Pos.compare_antisym mx my);
    destruct (ex ?= ey)%Z, (mx ?= my)%positive; reflexivity.
Qed.

Lemma SFcompare_refl x : x <> S754_nan -> SFcompare x x = Some Eq.
Proof.
  destruct x as [[|]|[|]| |[|] m e]; intros Hn; try reflexivity;
    try congruence; simpl; rewrite Z.compare_refl;
    change (Pos.compare_cont Eq) with Pos.compare;
    rewrite Pos.compare_refl; reflexivity.
Qed.

Lemma SFcompare_Eq x y :
  SFcompare x y = Some Eq ->
  (exists s1 s2, x = S754_zero s1 /\ y = S754_zero s2) \/ x = y.
Proof.
  destruct x as [[|]|[|]| |[|] mx ex], y as [[|]|[|]| |[|] my ey];
    simpl; try discriminate; eauto;
    change (Pos.compare_cont Eq) with Pos.compare;
    destruct (Z.compare_spec ex ey); try discriminate;
    destruct (Pos.compare_spec mx my); try discriminate;
    intros _; right; congruence.
Qed.

Lemma float_is_nan (x : float) :
  PrimFloat.is_nan x = true <-> Prim2SF x = S754_nan.
Proof.
  unfold PrimFloat.is_nan. rewrite FloatAxioms.eqb_spec. unfold SFeqb.
  split.
  - destruct (Prim2SF x) eqn:E; try reflexivity;
      rewrite SFcompare_refl by discriminate; discriminate.
  - intros ->. reflexivity.
Qed.

Lemma float_zero_leb (x : float) :
  (lit 0 <=? x)%py = true <->
  SF_not_negative (Prim2SF x) = true /\ Prim2SF x <> S754_nan.
Proof.
  cbn. rewrite FloatAxioms.leb_spec.
  replace (Prim2SF (float_of_Q 0)) with (S754_zero false)
    by (vm_compute; reflexivity).
  destruct (Prim2SF x) as [[|]|[|]| |[|] m e]; simpl;
    split; try tauto; try discriminate; try (intros [? ?]; congruence);
    intros _; split; try reflexivity; discriminate.
Qed.

Lemma float_not_negative_cases (x : float) :
  SF_not_negative (Prim2SF x) = true ->
  (lit 0 <=? x)%py = true \/ PrimFloat.is_nan x = true.
Proof.
  intros Hx. destruct (Prim2SF x) eqn:E.
  - left. apply float_zero_leb. rewrite E. split; [exact Hx|discriminate].
  - left. apply float_zero_leb. rewrite E. split; [exact Hx|discriminate].
  - right. apply float_is_nan. exact E.
  - left. apply float_zero_leb. rewrite E. split; [exact Hx|discriminate].
Qed.

Lemma SFcompare_Some x y :
  x <> S754_nan -> y <> S754_nan -> exists c, SFcompare x y = Some c.
Proof.
  destruct x as [[|]|[|]| |[|] mx ex], y as [[|]|[|]| |[|] my ey];
    intros Hx Hy; try congruence; simpl; eauto.
Qed.

Lemma float_ltb_false_leb (x y : float) :
  Prim2SF x <> S754_nan -> Prim2SF y <> S754_nan ->
  (x <? y)%py = false -> (y <=? x)%py = true.
Proof.
  cbn. rewrite FloatAxioms.ltb_spec, FloatAxioms.leb_spec.
  unfold SFltb, SFleb. rewrite (SFcompare_antisym (Prim2SF x) (Prim2SF y)).
  intros Hx Hy. destruct (SFcompare_Some _ _ Hx Hy) as [c ->].
  destruct c; simpl; intros; congruence.
Qed.

(** *** Literals *)

Lemma Prim2SF_lit_0 : Prim2SF (lit 0) = S754_zero false.
Proof. vm_compute. reflexivity. Qed.

Lemma Prim2SF_lit_2 : Prim2SF (lit 2) = S754_finite false 4503599627370496 (-51).
Proof. vm_compute. reflexivity. Qed.

Lemma Prim2SF_lit_100 :
  Prim2SF (lit 100) = S754_finite false 7036874417766400 (-46).
Proof. vm_compute. reflexivity. Qed.


Ltac float_ops :=
  change (@num_add float float_PyNum) with PrimFloat.add in *;
  change (@num_sub float float_PyNum) with PrimFloat.sub in *;
  change (@num_mul float float_PyNum) with PrimFloat.mul in *;
  change (@num_div float float_PyNum) with PrimFloat.div in *;
  change (@num_abs float float_PyNum) with PrimFloat.abs in *;
  change (@num_ltb float float_PyNum) with PrimFloat.ltb in *;
  change (@num_leb float float_PyNum) with PrimFloat.leb in *;
  change (@num_eqb float float_PyNum) with PrimFloat.eqb in *.

(** *** Rounding makes no NaN and keeps the sign *)






Lemma binary_round_aux_abs s m e l :
  SFabs (binary_round_aux prec emax s m e l)
  = SFabs (binary_round_aux prec emax false m e l).
Proof.
  unfold binary_round_aux.
  destruct (shr_fexp prec emax m e l) as [mrs' e'].
  destruct (shr_fexp prec emax _ e' loc_Exact) as [mrs'' e''].
  destruct (shr_m mrs''); [reflexivity| |reflexivity].
  destruct (e'' <=? emax - prec)%Z; reflexivity.
Qed.

Lemma binary_normalize_abs_opp m e :
  SFabs (binary_normalize prec emax (- m) e false)
  = SFabs (binary_normalize prec emax m e false).
Proof.
  destruct m as [|p|p]; [reflexivity| |]; simpl; unfold binary_round;
    destruct (shl_align _ _ _) as [mz ez];
    rewrite (binary_round_aux_abs true); reflexivity.
Qed.


Lemma binary_round_aux_not_negative m e l :
  SF_not_negative (binary_round_aux prec emax false m e l) = true.
Proof.
  unfold binary_round_aux.
  destruct (shr_fexp prec emax m e l) as [mrs' e'].
  destruct (shr_fexp prec emax _ e' loc_Exact) as [mrs'' e''].
  destruct (shr_m mrs''); [reflexivity| |reflexivity].
  destruct (e'' <=? emax - prec)%Z; reflexivity.
Qed.

Lemma SFmul_not_negative x y :
  SF_not_negative x = true -> SF_not_negative y = true ->
  SF_not_negative (SF64mul x y) = true.
Proof.
  destruct x as [[|]|[|]| |[|] mx ex], y as [[|]|[|]| |[|] my ey];
    simpl; try reflexivity; try discriminate.
  intros _ _. apply binary_round_aux_not_negative.
Qed.

Lemma SFadd_not_negative x y :
  SF_not_negative x = true -> SF_not_negative y = true ->
  SF_not_negative (SF64add x y) = true.
Proof.
  destruct x as [[|]|[|]| |[|] mx ex], y as [[|]|[|]| |[|] my ey];
    simpl; try reflexivity; try discriminate.
  intros _ _. unfold SF64add, SFadd. cbn [cond_Zopp].
  destruct (shl_align mx ex (Z.min ex ey)) as [a ea].
  destruct (shl_align my ey (Z.min ex ey)) as [b eb].
  cbn [fst Z.add binary_normalize]. unfold binary_round.
  destruct (shl_align _ _ _) as [mz ez].
  apply binary_round_aux_not_negative.
Qed.

Lemma SFdiv_not_negative x y :
  SF_not_negative x = true -> SF_positive_or_nan y = true ->
  SF_not_negative (SF64div x y) = true.
Proof.
  destruct x as [[|]|[|]| |[|] mx ex], y as [[|]|[|]| |[|] my ey];
    simpl; try reflexivity; try discriminate.
  intros _ _. unfold SF64div, SFdiv.
  destruct (SFdiv_core_binary _ _ _ _ _ _) as [[mz ez] lz].
  apply binary_round_aux_not_negative.
Qed.

Lemma SFabs_not_negative x : SF_not_negative (SFabs x) = true.
Proof. destruct x; reflexivity. Qed.

Lemma float_nonzero_positive_or_nan (x : float) :
  (x =? lit 0)%py = false -> SF_not_negative (Prim2SF x) = true ->
  SF_positive_or_nan (Prim2SF x) = true.
Proof.
  cbn. rewrite FloatAxioms.eqb_spec.
  replace (Prim2SF (float_of_Q 0)) with (S754_zero false)
    by (vm_compute; reflexivity).
  destruct (Prim2SF x) as [[|]|[|]| |[|] m e]; simpl;
    try reflexivity; discriminate.
Qed.

(** *** Sums, differences and products *)

Lemma SFadd_comm x y : SF64add x y = SF64add y x.
Proof.
  destruct x as [[|]|[|]| |sx mx ex], y as [[|]|[|]| |sy my ey];
    try reflexivity.
  unfold SF64add, SFadd. rewrite (Z.min_comm ey ex). f_equal.
  apply Z.add_comm.
Qed.

Lemma SFabs_sub_sym x y : SFabs (SF64sub x y) = SFabs (SF64sub y x).
Proof.
  destruct x as [[|]|[|]| |sx mx ex], y as [[|]|[|]| |sy my ey];
    try reflexivity.
  unfold SF64sub, SFsub. rewrite (Z.min_comm ey ex).
  rewrite <- binary_normalize_abs_opp. f_equal. f_equal. lia.
Qed.

Lemma float_add_comm (x y : float) : (x + y)%float = (y + x)%float.
Proof.
  apply Prim2SF_inj. rewrite !FloatAxioms.add_spec. apply SFadd_comm.
Qed.

Lemma float_abs_sub_sym (x y : float) :
  PrimFloat.abs (x - y)%float = PrimFloat.abs (y - x)%float.
Proof.
  apply Prim2SF_inj.
  rewrite !FloatAxioms.abs_spec, !FloatAxioms.sub_spec.
  apply SFabs_sub_sym.
Qed.








(** *** The value of a scaled pair *)

Lemma spread_point_value {F} `{PyNum F} (coef pa pb : F) :
  spread_point coef pa pb =
  if pa <? pb then spread_value (pa * coef) pb
  else spread_value pa (pb * coef).
Proof. unfold spread_point. destruct (pa <? pb); reflexivity. Qed.

Lemma spread_value_sym_float (x y : float) :
  spread_value x y = spread_value y x.
Proof.
  unfold spread_value. change (@num_add float float_PyNum) with PrimFloat.add.
  change (@num_sub float float_PyNum) with PrimFloat.sub.
  change (@num_abs float float_PyNum) with PrimFloat.abs.
  rewrite (float_add_comm x y), (float_abs_sub_sym x y). reflexivity.
Qed.

Lemma spread_value_nan (x y : float) :
  Prim2SF x = S754_nan \/ Prim2SF y = S754_nan ->
  spread_value x y = PrimFloat.nan.
Proof.
  intros Hn.
  assert (Hd : Prim2SF ((x + y) / lit 2)%py = S754_nan).
  { float_ops. rewrite FloatAxioms.div_spec, FloatAxioms.add_spec.
    destruct Hn as [-> | ->]; [reflexivity|].
    destruct (Prim2SF x) as [[|]|[|]| |]; reflexivity. }
  unfold spread_value. cbv zeta.
  assert (E : ((x + y) / lit 2 =? lit 0)%py = false).
  { float_ops. rewrite FloatAxioms.eqb_spec, Hd. reflexivity. }
  rewrite E. apply Prim2SF_inj. float_ops.
  rewrite FloatAxioms.mul_spec, FloatAxioms.div_spec, Hd.
  destruct (Prim2SF (PrimFloat.abs _)) as [[|]|[|]| |]; reflexivity.
Qed.

Lemma spread_value_zeros (x y : float) s1 s2 :
  Prim2SF x = S754_zero s1 -> Prim2SF y = S754_zero s2 ->
  spread_value x y = lit 0.
Proof.
  intros Hx Hy. unfold spread_value. cbv zeta.
  assert (E : ((x + y) / lit 2 =? lit 0)%py = true).
  { float_ops.
    rewrite FloatAxioms.eqb_spec, FloatAxioms.div_spec,
      FloatAxioms.add_spec, Hx, Hy, Prim2SF_lit_2, Prim2SF_lit_0.
    destruct s1, s2; reflexivity. }
  rewrite E. reflexivity.
Qed.

Lemma spread_value_tie (coef pa pb : float) :
  (pa <? pb)%py = false -> (pb <? pa)%py = false ->
  spread_value pa (pb * coef) = spread_value pb (pa * coef).
Proof.
  float_ops. rewrite !FloatAxioms.ltb_spec. unfold SFltb.
  rewrite (SFcompare_antisym (Prim2SF pa) (Prim2SF pb)).
  destruct (SFcompare (Prim2SF pa) (Prim2SF pb)) as [[| |]|] eqn:Ec;
    simpl; try discriminate; intros _ _.
  - destruct (SFcompare_Eq _ _ Ec) as [(s1 & s2 & Ha & Hb)|Hab].
    + assert (Hm : forall (z : float) s, Prim2SF z = S754_zero s ->
                (exists s', Prim2SF (z * coef)%float = S754_zero s') \/
                Prim2SF (z * coef)%float = S754_nan).
      { intros z s Hz. rewrite FloatAxioms.mul_spec, Hz.
        destruct (Prim2SF coef) as [[|]|[|]| |[|] mc ec]; simpl; eauto. }
      assert (Hsame :
        (exists s', Prim2SF (pb * coef)%float = S754_zero s') <->
        (exists s', Prim2SF (pa * coef)%float = S754_zero s')).
      { rewrite !FloatAxioms.mul_spec, Ha, Hb.
        destruct (Prim2SF coef) as [[|]|[|]| |[|] mc ec]; simpl;
          split; intros [s' Hs]; try discriminate; eauto. }
      destruct (Hm pb s2 Hb) as [[sb Hzb]|Hnb].
      * destruct (proj1 Hsame (ex_intro _ sb Hzb)) as [sa Hza].
        rewrite (spread_value_zeros pa _ s1 sb Ha Hzb).
        rewrite (spread_value_zeros pb _ s2 sa Hb Hza). reflexivity.
      * destruct (Hm pa s1 Ha) as [[sa Hza]|Hna].
        -- destruct (proj2 Hsame (ex_intro _ sa Hza)) as [sb Hzb].
           congruence.
        -- rewrite !spread_value_nan by auto. reflexivity.
    + apply Prim2SF_inj in Hab. subst pb. reflexivity.
  - assert (Hn : Prim2SF pa = S754_nan \/ Prim2SF pb = S754_nan).
    { destruct (Prim2SF pa) as [[|]|[|]| |[|] ma ea],
        (Prim2SF pb) as [[|]|[|]| |[|] mb eb]; simpl in Ec;
        try discriminate; auto. }
    assert (Hmul : forall z : float, Prim2SF z = S754_nan ->
                Prim2SF (z * coef)%float = S754_nan).
    { intros z Hz. rewrite FloatAxioms.mul_spec, Hz. reflexivity. }
    destruct Hn as [Hn|Hn]; rewrite !spread_value_nan; auto.
Qed.

Lemma spread_point_sym_float (coef pa pb : float) :
  spread_point coef pa pb = spread_point coef pb pa.
Proof.
  rewrite !spread_point_value.
  destruct (pa <? pb)%py eqn:E1; destruct (pb <? pa)%py eqn:E2.
  - exfalso. float_ops. rewrite FloatAxioms.ltb_spec in E1, E2.
    unfold SFltb in E1, E2.
    rewrite (SFcompare_antisym (Prim2SF pa) (Prim2SF pb)) in E2.
    destruct (SFcompare (Prim2SF pa) (Prim2SF pb)) as [[| |]|];
      simpl in *; discriminate.
  - apply spread_value_sym_float.
  - apply spread_value_sym_float.
  - apply spread_value_tie; assumption.
Qed.

Lemma spread_value_not_negative (x y : float) :
  SF_not_negative (Prim2SF x) = true ->
  SF_not_negative (Prim2SF y) = true ->
  SF_not_negative (Prim2SF (spread_value x y)) = true.
Proof.
  intros Hx Hy. unfold spread_value. cbv zeta.
  assert (Hd : SF_not_negative (Prim2SF ((x + y) / lit 2)%py) = true).
  { float_ops. rewrite FloatAxioms.div_spec, FloatAxioms.add_spec.
    apply SFdiv_not_negative.
    - apply SFadd_not_negative; assumption.
    - rewrite Prim2SF_lit_2. reflexivity. }
  destruct ((x + y) / lit 2 =? lit 0)%py eqn:E.
  - rewrite Prim2SF_lit_0. reflexivity.
  - pose proof (float_nonzero_positive_or_nan _ E Hd) as Hpos.
    float_ops.
    rewrite FloatAxioms.mul_spec, FloatAxioms.div_spec, FloatAxioms.abs_spec.
    apply SFmul_not_negative.
    + apply SFdiv_not_negative; [apply SFabs_not_negative|exact Hpos].
    + rewrite Prim2SF_lit_100. reflexivity.
Qed.

Lemma spread_point_not_below_zero (coef pa pb : float) :
  (lit 0 <=? coef)%py = true ->
  (lit 0 <=? pa)%py = true -> (lit 0 <=? pb)%py = true ->
  not_below_zero (spread_point coef pa pb).
Proof.
  intros Hc Ha Hb. apply float_zero_leb in Hc, Ha, Hb.
  destruct Hc as [Hc _], Ha as [Ha _], Hb as [Hb _].
  apply float_not_negative_cases. rewrite spread_point_value.
  destruct (pa <? pb)%py; apply spread_value_not_negative;
    try assumption; float_ops; rewrite FloatAxioms.mul_spec;
    apply SFmul_not_negative; assumption.
Qed.

Lemma spread_point_scaled_float (coef pa pb : float) :
  (lit 0 <=? pa)%py = true -> (lit 0 <=? pb)%py = true ->
  exists pa' pb',
    cheaper_scaled coef pa pb pa' pb' /\
    spread_point coef pa pb =
      if ((pa' + pb') / lit 2 =? lit 0)%py then lit 0
      else spread_percent pa' pb'.
Proof.
  intros Ha Hb. apply float_zero_leb in Ha, Hb.
  unfold spread_point. destruct (pa <? pb)%py eqn:E.
  - exists (pa * coef)%py, pb. split; [|reflexivity]. left. auto.
  - exists pa, (pb * coef)%py. split; [|reflexivity]. right.
    split; [|auto]. apply float_ltb_false_leb; tauto.
Qed.



(** C5, as stated, fails on binary64.  With both prices [2^1023] (about
    8.99e307) and the coefficient 4 the scaled second price overflows to
    infinity and the point is NaN, which is not non-negative.  And with
    the prices [2^-1074] (5e-324) and 0 the sum of the scaled pair is not
    zero, yet its half rounds to zero and the point is 0. *)
Lemma calc_spread_list_nan_and_underflow :
  let big : float := 0x1p1023%float in
  let tiny : float := 0x1p-1074%float in
  (length [big] = length [big] /\
   Forall (fun p => (lit 0 <=? p)%py = true) [big] /\
   (lit 0 <=? lit 4)%py = true /\
   calc_spread_list [big] [big] (lit 4) = [PrimFloat.nan] /\
   (lit 0 <=? PrimFloat.nan)%py = false) /\
  (Forall (fun p => (lit 0 <=? p)%py = true) [tiny; lit 0] /\
   (tiny + lit 0 =? lit 0)%py = false /\
   ((tiny + lit 0) / lit 2 =? lit 0)%py = true /\
   calc_spread_list [tiny] [lit 0] (lit 1) = [lit 0]).
Proof. vm_compute. repeat split; repeat constructor. Qed.

(** C5 (amended): on binary64, for equal-length sequences of non-negative
    prices and a non-negative coefficient, [calc_spread_list] returns a
    sequence of the same length; its point [i] is computed from the pair
    in which only the cheaper of [pa], [pb] is scaled (the second when
    they are equal): it is 0 when the mean [(pa' + pb') / 2], as
    computed, is zero and [|pa' - pb'| / ((pa' + pb') / 2) * 100],
    evaluated in binary64, otherwise; and no point is below zero: each
    is at least 0 or is NaN. *)
Theorem calc_spread_list_binary64
  (series_a series_b : list float) (coef : float) :
  length series_a = length series_b ->
  Forall (fun p => (lit 0 <=? p)%py = true) series_a ->
  Forall (fun p => (lit 0 <=? p)%py = true) series_b ->
  (lit 0 <=? coef)%py = true ->
  length (calc_spread_list series_a series_b coef) = length series_a /\
  (forall (i : nat) (pa pb : float),
      series_a !! i = Some pa -> series_b !! i = Some pb ->
      exists pa' pb' x,
        calc_spread_list series_a series_b coef !! i = Some x /\
        cheaper_scaled coef pa pb pa' pb' /\
        (((pa' + pb') / lit 2 =? lit 0)%py = true -> x = lit 0) /\
        (((pa' + pb') / lit 2 =? lit 0)%py = false ->
         x = spread_percent pa' pb') /\
        not_below_zero x) /\
  Forall not_below_zero (calc_spread_list series_a series_b coef).
Proof.
  intros Hlen Ha Hb Hc.
  assert (Hpoint : forall i pa pb,
             series_a !! i = Some pa -> series_b !! i = Some pb ->
             exists pa' pb' x,
               calc_spread_list series_a series_b coef !! i = Some x /\
               cheaper_scaled coef pa pb pa' pb' /\
               (((pa' + pb') / lit 2 =? lit 0)%py = true -> x = lit 0) /\
               (((pa' + pb') / lit 2 =? lit 0)%py = false ->
                x = spread_percent pa' pb') /\
               not_below_zero x).
  { intros i pa pb Hia Hib.
    pose proof (proj1 (Forall_lookup _ _) Ha i pa Hia) as Hpa.
    pose proof (proj1 (Forall_lookup _ _) Hb i pb Hib) as Hpb.
    simpl in Hpa, Hpb.
    destruct (spread_point_scaled_float coef pa pb Hpa Hpb)
      as (pa' & pb' & Hs & Hx).
    exists pa', pb', (spread_point coef pa pb).
    split; [|split; [exact Hs|]].
    - unfold calc_spread_list.
      change (map ?f ?l) with (f <$> l).
      rewrite list_lookup_fmap, lookup_zip_with, Hia, Hib. reflexivity.
    - pose proof (spread_point_not_below_zero coef pa pb Hc Hpa Hpb)
        as Hnn.
      revert Hnn. rewrite Hx.
      destruct ((pa' + pb') / lit 2 =? lit 0)%py; intros Hnn.
      + split; [reflexivity|]. split; [discriminate|exact Hnn].
      + split; [discriminate|]. split; [reflexivity|exact Hnn]. }
  split; [|split].
  - unfold calc_spread_list.
    rewrite length_map, length_zip_with. lia.
  - exact Hpoint.
  - apply Forall_lookup. intros i x Hx.
    assert (Hi : (i < length series_a)%nat).
    { apply lookup_lt_Some in Hx. unfold calc_spread_list in Hx.
      rewrite length_map, length_zip_with in Hx. lia. }
    destruct (lookup_lt_is_Some_2 series_a i Hi) as [pa Hia].
    destruct (lookup_lt_is_Some_2 series_b i ltac:(lia)) as [pb Hib].
    destruct (Hpoint i pa pb Hia Hib)
      as (pa' & pb' & x' & Hx' & _ & _ & _ & Hnn).
    congruence.
Qed.

Lemma calc_spread_list_binary64_witness :
  let series_a : list float := [lit 3; lit 2; lit 0] in
  let series_b : list float := [lit 6; lit 2; lit 0] in
  (length series_a = length series_b /\
   Forall (fun p => (lit 0 <=? p)%py = true) series_a /\
   Forall (fun p => (lit 0 <=? p)%py = true) series_b /\
   (lit 0 <=? lit 2)%py = true) /\
  length (calc_spread_list series_a series_b (lit 2)) = 3%nat /\
  Forall not_below_zero (calc_spread_list series_a series_b (lit 2)).
Proof.
  intros series_a series_b.
  assert (Hlen : length series_a = length series_b) by reflexivity.
  assert (Ha : Forall (fun p : float => (lit 0 <=? p)%py = true) series_a)
    by (vm_compute; repeat constructor).
  assert (Hb : Forall (fun p : float => (lit 0 <=? p)%py = true) series_b)
    by (vm_compute; repeat constructor).
  assert (Hc : ((lit 0 : float) <=? lit 2)%py = true) by reflexivity.
  split; [tauto|].
  destruct (calc_spread_list_binary64 series_a series_b (lit 2)
              Hlen Ha Hb Hc) as (Hl & _ & Hf).
  split; assumption.
Defined.




End Binary64.

(** ** Properties of the series aligner *)

Section AlignFacts.
Context {F : Type}.
Implicit Types (a b : list (Z * F)) (d : gmap Z F) (common : list Z).

(** The dictionary comprehension is [list_to_map] read from the end. *)
Lemma dict_of_points_fold a : forall d,
  fold_left (fun d '(ts, p) => <[ts := p]> d) a d
  = list_to_map (reverse a) ∪ d.
Proof.
  induction a as [|[ts p] a IH]; intros d; simpl.
  - rewrite (left_id_L ∅ (∪)). reflexivity.
  - rewrite IH, reverse_cons, list_to_map_app. simpl.
    rewrite <- (assoc_L (∪)), insert_empty, <- insert_union_singleton_l.
    reflexivity.
Qed.

Lemma dict_of_points_list_to_map a :
  dict_of_points a = list_to_map (reverse a).
Proof.
  unfold dict_of_points. rewrite dict_of_points_fold.
  apply (right_id_L ∅ (∪)).
Qed.

Lemma dict_of_points_dom a ts :
  ts ∈ dom (dict_of_points a) <-> ts ∈ a.*1.
Proof.
  rewrite dict_of_points_list_to_map, dom_list_to_map_L.
  rewrite elem_of_list_to_set, fmap_reverse, elem_of_reverse. reflexivity.
Qed.

Lemma dict_of_points_elem a ts p :
  dict_of_points a !! ts = Some p -> (ts, p) ∈ a.
Proof.
  rewrite dict_of_points_list_to_map. intros Hl.
  apply elem_of_list_to_map_2 in Hl. apply elem_of_reverse. exact Hl.
Qed.

Lemma dict_of_points_unique a ts p :
  NoDup a.*1 -> (ts, p) ∈ a -> dict_of_points a !! ts = Some p.
Proof.
  intros Hnd Hin. rewrite dict_of_points_list_to_map.
  apply elem_of_list_to_map_1.
  - rewrite fmap_reverse, reverse_Permutation. exact Hnd.
  - apply elem_of_reverse. exact Hin.
Qed.

Lemma dict_of_points_perm a a' :
  NoDup a.*1 -> a' ≡ₚ a -> dict_of_points a' = dict_of_points a.
Proof.
  intros Hnd Hp. rewrite !dict_of_points_list_to_map.
  apply list_to_map_proper.
  - rewrite fmap_reverse, reverse_Permutation, Hp. exact Hnd.
  - rewrite !reverse_Permutation. exact Hp.
Qed.

Lemma dict_of_points_dom_perm a a' :
  a' ≡ₚ a -> dom (dict_of_points a') = dom (dict_of_points a).
Proof.
  intros Hp. apply set_eq. intros ts.
  rewrite !dict_of_points_dom, Hp. reflexivity.
Qed.

Lemma StronglySorted_le_lt (l : list Z) :
  StronglySorted Z.le l -> NoDup l -> StronglySorted Z.lt l.
Proof.
  induction 1 as [|x l Hs IH Hall]; intros Hnd; constructor.
  - apply IH. apply NoDup_cons in Hnd. tauto.
  - apply NoDup_cons in Hnd. destruct Hnd as [Hx _].
    apply Forall_forall. intros y Hy.
    pose proof (proj1 (Forall_forall _ _) Hall y Hy) as Hle.
    assert (x <> y) by (intros ->; contradiction). lia.
Qed.

Lemma common_timestamps_elem a b ts :
  ts ∈ common_timestamps a b <-> ts ∈ a.*1 /\ ts ∈ b.*1.
Proof.
  unfold common_timestamps. rewrite merge_sort_Permutation.
  rewrite elem_of_elements, elem_of_intersection, !dict_of_points_dom.
  reflexivity.
Qed.

Lemma common_timestamps_increasing a b :
  StronglySorted Z.lt (common_timestamps a b).
Proof.
  apply StronglySorted_le_lt.
  - apply (StronglySorted_merge_sort Z.le).
  - unfold common_timestamps. rewrite merge_sort_Permutation.
    apply NoDup_elements.
Qed.

(** No lookup of the projection raises [KeyError]. *)
Lemma project_total d common :
  (forall ts, ts ∈ common -> ts ∈ dom d) ->
  exists series, project d common = Some series.
Proof.
  intros Hdom. apply (mapM_is_Some_2 (fun ts => d !! ts)).
  apply Forall_forall. intros ts Hts.
  apply elem_of_dom, Hdom, Hts.
Qed.

Lemma project_lookup d common series :
  project d common = Some series ->
  length series = length common /\
  forall i ts, common !! i = Some ts -> series !! i = d !! ts.
Proof.
  unfold project. intros Hm. apply mapM_Some in Hm. split.
  - symmetry. eapply Forall2_length, Hm.
  - intros i ts Hi.
    destruct (Forall2_lookup_l _ _ _ _ _ Hm Hi) as (p & Hp & Hd).
    congruence.
Qed.

Lemma align_series_total a b :
  exists series_a series_b,
    align_series a b = Some (common_timestamps a b, series_a, series_b).
Proof.
  unfold align_series. fold (common_timestamps a b).
  destruct (project_total (dict_of_points a) (common_timestamps a b))
    as [sa ->].
  { intros ts Hts. apply common_timestamps_elem in Hts.
    apply dict_of_points_dom. tauto. }
  destruct (project_total (dict_of_points b) (common_timestamps a b))
    as [sb ->].
  { intros ts Hts. apply common_timestamps_elem in Hts.
    apply dict_of_points_dom. tauto. }
  eauto.
Qed.
End AlignFacts.

Section AlignClaim.
Context {F : Type}.
Implicit Types (a b : list (Z * F)).

(** The price the dictionary holds for a timestamp is the price of the
    last point of the series that has this timestamp. *)
Lemma dict_of_points_last a : forall ts p,
  dict_of_points a !! ts = Some p ->
  exists pre post, a = pre ++ (ts, p) :: post /\ ts ∉ post.*1.
Proof.
  induction a as [|[t q] a IH] using rev_ind; intros ts p.
  - unfold dict_of_points. simpl. rewrite lookup_empty. discriminate.
  - unfold dict_of_points. rewrite fold_left_app. simpl.
    fold (dict_of_points a). destruct (decide (t = ts)) as [->|Hne].
    + rewrite lookup_insert_eq. intros [= ->].
      exists a, []. split; [reflexivity|]. simpl. apply not_elem_of_nil.
    + rewrite lookup_insert_ne by exact Hne. intros Hl.
      destruct (IH ts p Hl) as (pre & post & -> & Hpost).
      exists pre, (post ++ [(t, q)]). split.
      * rewrite <- app_assoc. reflexivity.
      * rewrite fmap_app, elem_of_app. simpl.
        rewrite list_elem_of_singleton. intros [?|?]; [tauto|congruence].
Qed.

Lemma align_series_perm_timestamps a b a' b' :
  a' ≡ₚ a -> b' ≡ₚ b -> common_timestamps a' b' = common_timestamps a b.
Proof.
  intros Ha Hb. unfold common_timestamps.
  rewrite (dict_of_points_dom_perm a a' Ha).
  rewrite (dict_of_points_dom_perm b b' Hb). reflexivity.
Qed.

(** C6 (amended): [align_series] returns the sorted intersection of the
    two timestamp sets, strictly increasing, with two price sequences of
    that length; at index [i] each holds the price its series gives the
    [i]-th common timestamp (the last point with that timestamp); the
    returned timestamps do not depend on the order of the input points,
    and neither do the prices when the timestamps of each series are
    distinct; an empty intersection gives three empty outputs.  No lookup
    fails. *)
Theorem align_series_sorted_intersection a b :
  exists common series_a series_b,
    align_series a b = Some (common, series_a, series_b) /\
    (forall ts, ts ∈ common <-> ts ∈ a.*1 /\ ts ∈ b.*1) /\
    StronglySorted Z.lt common /\
    length series_a = length common /\
    length series_b = length common /\
    (forall i ts, common !! i = Some ts ->
       exists pa pb,
         series_a !! i = Some pa /\ series_b !! i = Some pb /\
         (exists pre post, a = pre ++ (ts, pa) :: post /\ ts ∉ post.*1) /\
         (exists pre post, b = pre ++ (ts, pb) :: post /\ ts ∉ post.*1)) /\
    (forall a' b', a' ≡ₚ a -> b' ≡ₚ b ->
       exists series_a' series_b',
         align_series a' b' = Some (common, series_a', series_b')) /\
    (NoDup a.*1 -> NoDup b.*1 ->
     forall a' b', a' ≡ₚ a -> b' ≡ₚ b ->
       align_series a' b' = align_series a b) /\
    ((forall ts, ~ (ts ∈ a.*1 /\ ts ∈ b.*1)) ->
     align_series a b = Some ([], [], [])).
Proof.
  destruct (align_series_total a b) as (sa & sb & Heq).
  exists (common_timestamps a b), sa, sb.
  pose proof Heq as Hproj. unfold align_series in Hproj.
  fold (common_timestamps a b) in Hproj.
  destruct (project (dict_of_points a) (common_timestamps a b))
    as [sa0|] eqn:Ea; [|discriminate].
  destruct (project (dict_of_points b) (common_timestamps a b))
    as [sb0|] eqn:Eb; [|discriminate].
  injection Hproj as -> ->.
  destruct (project_lookup _ _ _ Ea) as [Hla Hia].
  destruct (project_lookup _ _ _ Eb) as [Hlb Hib].
  split; [exact Heq|].
  split; [apply common_timestamps_elem|].
  split; [apply common_timestamps_increasing|].
  split; [exact Hla|]. split; [exact Hlb|].
  split; [|split; [|split]].
  - intros i ts Hi.
    assert (Hin : ts ∈ common_timestamps a b)
      by (apply list_elem_of_lookup; eauto).
    apply common_timestamps_elem in Hin. destruct Hin as [Hina Hinb].
    apply dict_of_points_dom, elem_of_dom in Hina, Hinb.
    destruct Hina as [pa Hpa], Hinb as [pb Hpb].
    exists pa, pb. rewrite (Hia i ts Hi), (Hib i ts Hi).
    split; [exact Hpa|]. split; [exact Hpb|].
    split; apply dict_of_points_last; assumption.
  - intros a' b' Ha Hb.
    destruct (align_series_total a' b') as (sa' & sb' & Heq').
    rewrite (align_series_perm_timestamps a b a' b' Ha Hb) in Heq'. eauto.
  - intros Hnda Hndb a' b' Ha Hb. unfold align_series.
    rewrite (dict_of_points_perm a a' Hnda Ha).
    rewrite (dict_of_points_perm b b' Hndb Hb). reflexivity.
  - intros Hempty.
    assert (Hnil : common_timestamps a b = []).
    { apply elem_of_nil_inv. intros ts Hts.
      apply common_timestamps_elem in Hts. exact (Hempty ts Hts). }
    rewrite Hnil in Hla, Hlb. rewrite Heq, Hnil.
    apply nil_length_inv in Hla, Hlb. subst. reflexivity.
Qed.
End AlignClaim.

(** C6, as stated, fails where a timestamp occurs twice in a series: the
    later point wins, so the two orders of the same points give different
    prices. *)
Lemma align_series_order_of_duplicates :
  let a : list (Z * Q) := [(1%Z, 10%Q); (1%Z, 20%Q)] in
  let a' : list (Z * Q) := [(1%Z, 20%Q); (1%Z, 10%Q)] in
  let b : list (Z * Q) := [(1%Z, 5%Q)] in
  a' ≡ₚ a /\
  align_series a b = Some ([1%Z], [20%Q], [5%Q]) /\
  align_series a' b = Some ([1%Z], [10%Q], [5%Q]) /\
  align_series a' b <> align_series a b.
Proof.
  assert (E1 : align_series [(1%Z, 10%Q); (1%Z, 20%Q)] [(1%Z, 5%Q)]
               = Some ([1%Z], [20%Q], [5%Q])) by (vm_compute; reflexivity).
  assert (E2 : align_series [(1%Z, 20%Q); (1%Z, 10%Q)] [(1%Z, 5%Q)]
               = Some ([1%Z], [10%Q], [5%Q])) by (vm_compute; reflexivity).
  split; [apply perm_swap|]. split; [exact E1|]. split; [exact E2|].
  rewrite E1, E2. discriminate.
Qed.

(** ** The binary64 reading of literals and of [round]

    Values CPython prints for the same expressions: [round(2.675, 2)] is
    2.67 (the double nearest 2.675 lies below it), [round(2.5)] is 2 and
    [round(3.5)] is 4 (ties to even), [round(4.125, 2)] is 4.12,
    [round(0.1 + 0.2, 10)] is 0.3 although [0.1 + 0.2] is not, and
    [round(1e-9, 10)] is [1e-9]. *)
Example float_round_examples :
  float_round 2 (lit (2675 # 1000)) = lit (267 # 100) /\
  float_round 0 (lit (5 # 2)) = lit 2 /\
  float_round 0 (lit (7 # 2)) = lit 4 /\
  float_round 2 (lit (33 # 8)) = lit (412 # 100) /\
  float_round 10 (lit (1 # 10) + lit (2 # 10))%py = lit (3 # 10) /\
  ((lit (1 # 10) + lit (2 # 10))%py =? (lit (3 # 10) : float))%py = false /\
  float_round 10 (eps (F := float)) = eps.
Proof. vm_compute. repeat split. Qed.

(** Beyond 2^53 too: [round(1e9, 10)] is [1e9], [round(2**60 + 1024, 2)]
    is the number itself, [round(90071992547409.93, 1)] is
    90071992547409.9 (two doubles below), [round(-0.001, 2)] is [-0.0]
    and [round(5e-324, 10)] is [0.0]. *)
Example float_round_large_examples :
  float_round 10 0x1.dcd65p+29%float = 0x1.dcd65p+29%float /\
  float_round 2 0x1.0000000000004p+60%float = 0x1.0000000000004p+60%float /\
  float_round 1 0x1.47ae147ae147cp+46%float = 0x1.47ae147ae147ap+46%float /\
  Prim2SF (float_round 2 (PrimFloat.opp (lit (1 # 1000))))
  = S754_zero true /\
  float_round 10 0x1p-1074%float = lit 0.
Proof. vm_compute. repeat split. Qed.

(** ** Properties of the threshold sweep *)

Section SweepFacts.
Context {F : Type} `{PyNum F}.
Local Open Scope py_scope.
Implicit Types (g row : list (F * F)) (results l : list (F * F * nat)).

Lemma retain_retained spreads results o c :
  retain results o c (count_cycles_for_thresholds spreads o c)
  = results ++ retained spreads [(o, c)].
Proof.
  unfold retain, retained, scored. simpl. rewrite filter_cons. simpl.
  destruct (0 <? count_cycles_for_thresholds spreads o c)%nat eqn:E.
  - apply Nat.ltb_lt in E. rewrite decide_True by exact E. reflexivity.
  - apply Nat.ltb_ge in E. rewrite decide_False by lia.
    rewrite app_nil_r. reflexivity.
Qed.

Lemma retained_app spreads g1 g2 :
  retained spreads (g1 ++ g2) = retained spreads g1 ++ retained spreads g2.
Proof. unfold retained. rewrite fmap_app, filter_app. reflexivity. Qed.

(** The loops append, to the results they start from, the retained
    results of the grid points they visit. *)
Lemma close_loop_grid cfg spreads o mc fuel : forall c results,
  close_loop fuel cfg spreads o mc c results
  = (fun row => results ++ retained spreads row)
      <$> close_grid fuel cfg o mc c.
Proof.
  induction fuel as [|fuel IH]; intros c results; simpl; [reflexivity|].
  destruct (c <=? mc + eps).
  - rewrite IH, retain_retained.
    destruct (close_grid fuel cfg o mc _) as [row|]; simpl; [|reflexivity].
    rewrite <- app_assoc, <- retained_app. reflexivity.
  - simpl. unfold retained. simpl. rewrite app_nil_r. reflexivity.
Qed.

Lemma open_loop_grid cfg spreads fuel : forall o results,
  open_loop fuel cfg spreads o results
  = (fun g => results ++ retained spreads g) <$> open_grid fuel cfg o.
Proof.
  induction fuel as [|fuel IH]; intros o results; simpl; [reflexivity|].
  destruct (o <=? OPEN_MAX cfg + eps).
  - destruct (num_round 10 (o - lit 4 + eps) <? lit 0); [apply IH|].
    rewrite close_loop_grid.
    destruct (close_grid fuel cfg o _ _) as [row|]; simpl; [|reflexivity].
    rewrite IH.
    destruct (open_grid fuel cfg _) as [g|]; simpl; [|reflexivity].
    rewrite retained_app, app_assoc. reflexivity.
  - simpl. unfold retained. simpl. rewrite app_nil_r. reflexivity.
Qed.

(** More fuel does not change a finished enumeration. *)
Lemma close_grid_fuel cfg o mc fuel : forall c row k,
  close_grid fuel cfg o mc c = Some row ->
  close_grid (fuel + k) cfg o mc c = Some row.
Proof.
  induction fuel as [|fuel IH]; intros c row k; simpl; [discriminate|].
  destruct (c <=? mc + eps); [|trivial].
  destruct (close_grid fuel cfg o mc _) as [row'|] eqn:E; [|discriminate].
  rewrite (IH _ _ k E). trivial.
Qed.

Lemma open_grid_fuel cfg fuel : forall o g k,
  open_grid fuel cfg o = Some g -> open_grid (fuel + k) cfg o = Some g.
Proof.
  induction fuel as [|fuel IH]; intros o g k; simpl; [discriminate|].
  destruct (o <=? OPEN_MAX cfg + eps); [|trivial].
  destruct (num_round 10 (o - lit 4 + eps) <? lit 0); [apply IH|].
  destruct (close_grid fuel cfg o _ _) as [row|] eqn:Ec; [|discriminate].
  rewrite (close_grid_fuel _ _ _ _ _ _ k Ec).
  destruct (open_grid fuel cfg _) as [g'|] eqn:Eo; [|discriminate].
  rewrite (IH _ _ k Eo). trivial.
Qed.

Lemma grid_fuel cfg fuel g k :
  grid fuel cfg = Some g -> grid (fuel + k) cfg = Some g.
Proof. apply open_grid_fuel. Qed.

(** The sort: a permutation, in decreasing order of the count, that keeps
    the order of the results of each count. *)
Lemma insert_by_cycles_perm x l : insert_by_cycles x l ≡ₚ x :: l.
Proof.
  induction l as [|y l IH]; simpl; [reflexivity|].
  destruct (x.2 <? y.2)%nat; [|reflexivity].
  rewrite IH. apply perm_swap.
Qed.

Lemma sort_by_cycles_perm l : sort_by_cycles l ≡ₚ l.
Proof.
  induction l as [|x l IH]; simpl; [reflexivity|].
  rewrite insert_by_cycles_perm, IH. reflexivity.
Qed.

Lemma insert_by_cycles_sorted x l :
  StronglySorted by_cycles_desc l ->
  StronglySorted by_cycles_desc (insert_by_cycles x l).
Proof.
  induction 1 as [|y l Hs IH Hall]; simpl.
  - repeat constructor.
  - destruct (x.2 <? y.2)%nat eqn:E.
    + apply Nat.ltb_lt in E. constructor; [exact IH|].
      rewrite insert_by_cycles_perm. constructor; [|exact Hall].
      unfold by_cycles_desc. lia.
    + apply Nat.ltb_ge in E. constructor; [constructor; assumption|].
      constructor; [exact E|].
      eapply Forall_impl; [exact Hall|]. unfold by_cycles_desc.
      simpl. intros z Hz. lia.
Qed.

Lemma sort_by_cycles_sorted l : StronglySorted by_cycles_desc (sort_by_cycles l).
Proof.
  induction l as [|x l IH]; simpl; [constructor|].
  apply insert_by_cycles_sorted, IH.
Qed.

Lemma insert_by_cycles_stable (k : nat) x l :
  filter (fun r => r.2 = k) (insert_by_cycles x l)
  = filter (fun r => r.2 = k) (x :: l).
Proof.
  induction l as [|y l IH]; simpl; [reflexivity|].
  destruct (x.2 <? y.2)%nat eqn:E; [|reflexivity].
  apply Nat.ltb_lt in E.
  rewrite (filter_cons _ y), IH, !(filter_cons _ x), (filter_cons _ y).
  destruct (decide (y.2 = k)), (decide (x.2 = k)); try reflexivity.
  exfalso. lia.
Qed.

Lemma sort_by_cycles_stable (k : nat) l :
  filter (fun r => r.2 = k) (sort_by_cycles l) = filter (fun r => r.2 = k) l.
Proof.
  induction l as [|x l IH]; simpl; [reflexivity|].
  rewrite insert_by_cycles_stable, !filter_cons, IH. reflexivity.
Qed.

Lemma sweep_grid fuel cfg spreads g :
  grid fuel cfg = Some g ->
  sweep fuel cfg spreads
  = Some (report_entry <$> take 5 (sort_by_cycles (retained spreads g))).
Proof.
  unfold grid, sweep. intros Hg. rewrite open_loop_grid, Hg. simpl.
  destruct (retained spreads g); reflexivity.
Qed.
End SweepFacts.

(** C2 (amended): whenever the enumeration of the grid finishes, with the list [g]
    of (open, close) pairs in the order the loops visit them, the sweep
    returns a report: the pairs of [g] whose cycle count is positive, put
    in decreasing order of the count with equal counts left in the order
    of [g], cut to the first 5 (each threshold rounded to two decimals,
    which changes nothing where the grid points have at most two); the
    report is the empty list when no pair has a positive count. *)
Theorem sweep_report
  {F : Type} `{PyNum F} (fuel : nat) (cfg : SweepConfig F)
  (spreads : list F) (g : list (F * F)) :
  grid fuel cfg = Some g ->
  exists ranked : list (F * F * nat),
    sweep fuel cfg spreads = Some (report_entry <$> take 5 ranked) /\
    ranked ≡ₚ retained spreads g /\
    (forall o c n, (o, c, n) ∈ ranked <->
       (o, c) ∈ g /\ n = count_cycles_for_thresholds spreads o c /\
       (0 < n)%nat) /\
    StronglySorted by_cycles_desc ranked /\
    (forall k : nat,
       filter (fun r => r.2 = k) ranked
       = filter (fun r => r.2 = k) (retained spreads g)) /\
    (length (report_entry <$> take 5 ranked) <= 5)%nat /\
    (Forall (fun oc => num_round 2 oc.1 = oc.1 /\ num_round 2 oc.2 = oc.2) g ->
     report_entry <$> take 5 ranked = plain_entry <$> take 5 ranked) /\
    (Forall (fun oc =>
               count_cycles_for_thresholds spreads oc.1 oc.2 = 0%nat) g ->
     sweep fuel cfg spreads = Some []).
Proof.
  intros Hg. exists (sort_by_cycles (retained spreads g)).
  assert (Hmem : forall o c n,
             (o, c, n) ∈ sort_by_cycles (retained spreads g) <->
             (o, c) ∈ g /\ n = count_cycles_for_thresholds spreads o c /\
             (0 < n)%nat).
  { intros o c n. rewrite sort_by_cycles_perm. unfold retained.
    rewrite list_elem_of_filter, list_elem_of_fmap. simpl. split.
    - intros (Hpos & [o' c'] & [= -> -> ->] & Hin). auto.
    - intros (Hin & -> & Hpos). split; [exact Hpos|].
      exists (o, c). split; [reflexivity|exact Hin]. }
  split; [apply sweep_grid, Hg|].
  split; [apply sort_by_cycles_perm|].
  split; [exact Hmem|].
  split; [apply sort_by_cycles_sorted|].
  split; [intros k; apply sort_by_cycles_stable|].
  split; [rewrite length_fmap, length_take; lia|].
  split.
  - intros Hround. apply list_fmap_ext. intros i [[o c] n] Hi.
    apply lookup_take_Some in Hi. destruct Hi as [Hi _].
    apply list_elem_of_lookup_2, Hmem in Hi. destruct Hi as [Hin _].
    destruct (proj1 (Forall_forall _ _) Hround _ Hin) as [Ho Hc].
    unfold report_entry, plain_entry. simpl in *. rewrite Ho, Hc.
    reflexivity.
  - intros Hzero. rewrite (sweep_grid _ _ _ _ Hg).
    assert (Hnil : retained spreads g = []).
    { apply elem_of_nil_inv. intros [[o c] n] Hin.
      rewrite <- sort_by_cycles_perm in Hin. apply Hmem in Hin.
      destruct Hin as (Hin & -> & Hpos).
      pose proof (proj1 (Forall_forall _ _) Hzero _ Hin) as Hz.
      simpl in Hz. lia. }
    rewrite Hnil. reflexivity.
Qed.

Lemma default_grid_enumerated : forall k : nat,
  grid (120 + k) (default_config (F := float)) = Some default_grid.
Proof. intros k. apply grid_fuel. vm_compute. reflexivity. Qed.

Lemma default_grid_length : length default_grid = 1431%nat.
Proof. vm_compute. reflexivity. Qed.

(** Rounding to two decimals leaves every threshold of the default grid
    as it is. *)
Lemma default_grid_two_decimals :
  Forall (fun oc => num_round 2 oc.1 = oc.1 /\ num_round 2 oc.2 = oc.2)
    default_grid.
Proof.
  apply Forall_forall. intros [o c] Hin.
  assert (Hb : forallb
                 (fun oc => PrimFloat.Leibniz.eqb (num_round 2 oc.1) oc.1
                            && PrimFloat.Leibniz.eqb (num_round 2 oc.2) oc.2)
                 default_grid = true) by (vm_compute; reflexivity).
  rewrite forallb_forall in Hb. apply list_elem_of_In in Hin.
  specialize (Hb _ Hin). apply andb_prop in Hb. destruct Hb as [Ho Hc].
  split; apply FloatAxioms.Leibniz.eqb_spec; assumption.
Qed.

(** The default grid is visited by ascending [open], then ascending
    [close]. *)
Lemma default_grid_ascending : ascending_grid default_grid = true.
Proof. vm_compute. reflexivity. Qed.

Lemma sweep_report_witness :
  let spreads : list float :=
    map lit [1; 5; 6; 2; 1 # 2; 7; 1; 0; 31; 0]%Q in
  grid 120 default_config = Some default_grid /\
  exists ranked : list (float * float * nat),
    sweep 120 default_config spreads = Some (plain_entry <$> take 5 ranked) /\
    ranked ≡ₚ retained spreads default_grid /\
    StronglySorted by_cycles_desc ranked.
Proof.
  intros spreads.
  assert (Hg : grid 120 default_config = Some default_grid)
    by (vm_compute; reflexivity).
  split; [exact Hg|].
  destruct (sweep_report 120 default_config spreads default_grid Hg)
    as (ranked & Hsweep & Hperm & _ & Hsorted & _ & _ & Hround & _).
  exists ranked. rewrite <- (Hround default_grid_two_decimals). auto.
Defined.

(** C2, as stated, fails for a configuration whose thresholds have more
    than two decimals: the report holds the thresholds rounded to two
    decimals, here (4.12, 0.0) and (4.12, 0.12) for the enumerated pairs
    (4.125, 0.0) and (4.125, 0.125), so it contains a pair that was never
    enumerated. *)
Lemma sweep_report_outside_grid :
  exists (g : list (float * float)) (report : list (CycleResult float))
         (r : CycleResult float),
    grid 7 eighths_config = Some g /\
    sweep 7 eighths_config (map lit [5; 0]%Q) = Some report /\
    r ∈ report /\
    Forall (fun oc => open r <> oc.1 \/ close r <> oc.2) g.
Proof.
  exists [(lit 4, lit 0); (lit (33 # 8), lit 0); (lit (33 # 8), lit (1 # 8))].
  exists [{| open := lit 4; close := lit 0; cycles := 1 |};
          {| open := lit (412 # 100); close := lit 0; cycles := 1 |};
          {| open := lit (412 # 100); close := lit (12 # 100); cycles := 1 |}].
  exists {| open := lit (412 # 100); close := lit 0; cycles := 1 |}.
  split; [vm_compute; reflexivity|].
  split; [vm_compute; reflexivity|].
  split.
  - rewrite !elem_of_cons. right. left. reflexivity.
  - repeat (apply Forall_cons; split;
            [left; simpl; intros E; apply (f_equal Prim2SF) in E;
             vm_compute in E; discriminate|]).
    apply Forall_nil_2.
Qed.

(** C7: on binary64, with openMin = 4, openMax = 5 and both steps 0.5,
    the loops visit exactly the six pairs (4.0, 0.0), (4.5, 0.0),
    (4.5, 0.5), (5.0, 0.0), (5.0, 0.5), (5.0, 1.0), each once and in this
    order, whatever fuel from 7 on they are given; the detector is called
    on these pairs and no other: the results of the loops are the
    retained results of this list. *)
Theorem scenario_grid_enumerated : forall k : nat,
  grid (7 + k) scenario_config = Some scenario_grid /\
  NoDup (map (fun oc => (Prim2SF oc.1, Prim2SF oc.2)) scenario_grid) /\
  forall spreads : list float,
    open_loop (7 + k) scenario_config spreads (OPEN_MIN scenario_config) []
    = Some (retained spreads scenario_grid).
Proof.
  intros k.
  assert (Hg : grid (7 + k) scenario_config = Some scenario_grid)
    by (apply grid_fuel; vm_compute; reflexivity).
  split; [exact Hg|]. split.
  - vm_compute.
    repeat (apply NoDup_cons; split;
            [rewrite ?elem_of_cons, elem_of_nil; intuition discriminate|]).
    apply NoDup_nil_2.
  - intros spreads. rewrite open_loop_grid.
    unfold grid in Hg. rewrite Hg. reflexivity.
Qed.

(** ** Properties of the orchestrator *)

Section OrchestratorFacts.
Context {F : Type} `{PyNum F} {World : Type}.
Variable fetch : string -> World -> option (list (Z * F)) * World.
Variable cfg : SweepConfig F.
Variable fuel : nat.
Implicit Types (cache : gmap string (list (Z * F))) (w : World).
Implicit Types (st : MainState (F := F) (World := World)).
Implicit Types (pairs pre post : list (string * PairInfo F)).

Lemma analyze_pair_fetch_fails p1 p2 c cache w cache' w' :
  fetch_fails fetch p1 p2 cache w cache' w' ->
  analyze_pair fetch cfg fuel p1 p2 c cache w = (Some NoData, cache', w').
Proof.
  intros [w1 Hc Hf|cache1 w1 w2 H1 Hc Hf]; unfold analyze_pair.
  - unfold fetch_cached. rewrite Hc, Hf. reflexivity.
  - rewrite H1. unfold fetch_cached. rewrite Hc, Hf. reflexivity.
Qed.

Lemma main_step_fetch_fails st p1 info cache' w' :
  fetch_fails fetch p1 (pair2 info) (klines_cache st) (world st) cache' w' ->
  main_step fetch cfg fuel st (p1, info)
  = Some {| klines_cache := cache'; analysis := analysis st; world := w' |}.
Proof.
  intros Hf. unfold main_step.
  rewrite (analyze_pair_fetch_fails _ _ _ _ _ _ _ Hf). reflexivity.
Qed.

Lemma main_loop_app pre post st :
  main_loop fetch cfg fuel (pre ++ post) st
  = main_loop fetch cfg fuel pre st ≫= main_loop fetch cfg fuel post.
Proof.
  revert st. induction pre as [|e pre IH]; intros st; simpl; [reflexivity|].
  destruct (main_step fetch cfg fuel st e) as [st'|]; simpl;
    [apply IH|reflexivity].
Qed.

(** A step stores at most the key of its own combination. *)
Lemma main_step_other_key st e st' (k : string) :
  main_step fetch cfg fuel st e = Some st' ->
  entry_key e <> k ->
  analysis st' !! k = analysis st !! k.
Proof.
  destruct e as [p1 info]. unfold main_step, entry_key. simpl.
  destruct (analyze_pair fetch cfg fuel p1 (pair2 info) _ _ _)
    as [[[[|res|]|] cache'] w']; intros [= <-] Hk; simpl;
    try reflexivity.
  apply lookup_insert_ne. exact Hk.
Qed.

Lemma main_loop_other_key pairs : forall st st' (k : string),
  main_loop fetch cfg fuel pairs st = Some st' ->
  Forall (fun e => entry_key e <> k) pairs ->
  analysis st' !! k = analysis st !! k.
Proof.
  induction pairs as [|e pairs IH]; intros st st' k; simpl.
  - intros [= <-] _. reflexivity.
  - destruct (main_step fetch cfg fuel st e) as [st1|] eqn:E;
      [|discriminate].
    intros Hl Hall. apply Forall_cons in Hall. destruct Hall as [He Hall].
    rewrite (IH _ _ _ Hl Hall). apply (main_step_other_key _ _ _ _ E He).
Qed.

(** C9: when fetching fails for either asset of a combination, the run
    goes on with the combinations after it, from the report as it was
    (only the cache and the world may have moved): nothing is stored for
    the failed combination, so its key is absent from the final report
    unless another combination has the same key, and the failure does not
    end the run. *)
Theorem fetch_failure_skips_combination
  pre p1 info post (w0 : World) st cache' w' :
  main fetch cfg fuel pre w0 = Some st ->
  fetch_fails fetch p1 (pair2 info) (klines_cache st) (world st) cache' w' ->
  main_step fetch cfg fuel st (p1, info)
  = Some {| klines_cache := cache'; analysis := analysis st; world := w' |} /\
  main fetch cfg fuel (pre ++ (p1, info) :: post) w0
  = main_loop fetch cfg fuel post
      {| klines_cache := cache'; analysis := analysis st; world := w' |} /\
  forall st_end,
    main fetch cfg fuel (pre ++ (p1, info) :: post) w0 = Some st_end ->
    Forall (fun e => entry_key e <> pair_key p1 (pair2 info)) (pre ++ post) ->
    analysis st_end !! pair_key p1 (pair2 info) = None.
Proof.
  intros Hpre Hfail.
  pose proof (main_step_fetch_fails st p1 info cache' w' Hfail) as Hstep.
  assert (Hrun : main fetch cfg fuel (pre ++ (p1, info) :: post) w0
                 = main_loop fetch cfg fuel post
                     {| klines_cache := cache'; analysis := analysis st;
                        world := w' |}).
  { unfold main in *. rewrite main_loop_app, Hpre.
    cbn [mbind option_bind main_loop]. rewrite Hstep. reflexivity. }
  split; [exact Hstep|]. split; [exact Hrun|].
  intros st_end Hend Hkeys. rewrite Hrun in Hend.
  apply Forall_app in Hkeys. destruct Hkeys as [Hkpre Hkpost].
  rewrite (main_loop_other_key _ _ _ _ Hend Hkpost). simpl.
  unfold main in Hpre.
  rewrite (main_loop_other_key _ _ _ _ Hpre Hkpre). simpl.
  apply lookup_empty.
Qed.
End OrchestratorFacts.

Lemma fetch_failure_skips_combination_witness :
  let st0 : MainState :=
    {| klines_cache := ∅; analysis := ∅; world := 0%nat |} in
  let cache1 : gmap string (list (Z * float)) :=
    {["AUSDT" := [(1%Z, lit 100); (2%Z, lit 104); (3%Z, lit 100)]]} in
  (main sample_source scenario_config 7 [] 0%nat = Some st0 /\
   fetch_fails sample_source "AUSDT" "DOWNUSDT" ∅ 0%nat cache1 2%nat) /\
  main sample_source scenario_config 7 sample_pairs 0%nat
  = main_loop sample_source scenario_config 7
      [("BUSDT", {| pair2 := "AUSDT"; coef := Some (lit (21 # 20)) |})]
      {| klines_cache := cache1; analysis := ∅; world := 2%nat |}.
Proof.
  intros st0 cache1.
  assert (Hpre : main sample_source scenario_config 7 [] 0%nat = Some st0)
    by reflexivity.
  assert (Hfail : fetch_fails sample_source "AUSDT" "DOWNUSDT"
                    (klines_cache st0) (world st0) cache1 2%nat).
  { apply fails_second with (w1 := 1%nat); reflexivity. }
  split; [split; [exact Hpre|exact Hfail]|].
  exact (proj1 (proj2 (fetch_failure_skips_combination
                         sample_source scenario_config 7
                         [] "AUSDT" {| pair2 := "DOWNUSDT"; coef := None |}
                         [("BUSDT", {| pair2 := "AUSDT";
                                       coef := Some (lit (21 # 20)) |})]
                         0%nat st0 cache1 2%nat Hpre Hfail))).
Defined.

(** The run on the sample: the combination whose second asset cannot be
    fetched leaves no entry, and the one after it is analysed (from the
    cached series of the shared asset) and stored, here with an empty
    report. *)
Example sample_run_report :
  analysis <$> main sample_source scenario_config 7 sample_pairs 0%nat
  = Some {["BUSDT-AUSDT" := []]}.
Proof. vm_compute. reflexivity. Qed.

(** * Further properties of the code *)

(** ** The detector *)

Section DetectorMore.
Context {F : Type} `{PyNum F}.
Local Open Scope py_scope.
Implicit Types (d : DetectorState) (n : nat) (s : F) (l : list F).

(** A laxer close threshold never leaves the detector behind. *)
Lemma weight_next_monotone_close `{!PyOrder F} o c1 c2 st1 st2 s :
  (c1 <=? c2) = true ->
  (weight st1 <= weight st2)%nat ->
  (weight (detector_next o c1 st1 s)
   <= weight (detector_next o c2 st2 s))%nat.
Proof.
  intros Hc Hw.
  destruct (Nat.eq_dec (weight st1) (weight st2)) as [E|E].
  - apply weight_inj in E. subst st2.
    destruct st1 as [[|] n]; simpl.
    + destruct (s >=? o); simpl; lia.
    + destruct (s <=? c1) eqn:E1.
      * rewrite (num_leb_trans s c1 c2 E1 Hc). simpl. lia.
      * destruct (s <=? c2); simpl; lia.
  - pose proof (weight_next_le o c1 st1 s).
    pose proof (weight_next_ge o c2 st2 s). lia.
Qed.

Lemma weight_fold_monotone_close `{!PyOrder F} o c1 c2 l : forall st1 st2,
  (c1 <=? c2) = true ->
  (weight st1 <= weight st2)%nat ->
  (weight (fold_left (detector_next o c1) l st1)
   <= weight (fold_left (detector_next o c2) l st2))%nat.
Proof.
  induction l as [|s l IH]; intros st1 st2 Hc Hw; simpl.
  - exact Hw.
  - apply IH; [exact Hc|]. apply weight_next_monotone_close; assumption.
Qed.

(** X1: For a fixed open threshold, raising the close threshold never lowers
    the count. *)
Theorem count_cycles_monotone_in_close `{!PyOrder F}
  (spreads : list F) (open_thr close1 close2 : F) :
  (close1 <=? close2) = true ->
  (count_cycles_for_thresholds spreads open_thr close1
   <= count_cycles_for_thresholds spreads open_thr close2)%nat.
Proof.
  intros Hc. rewrite !count_cycles_fold.
  pose proof (weight_fold_monotone_close open_thr close1 close2 spreads
                (WaitingOpen, 0%nat) (WaitingOpen, 0%nat) Hc (le_n _)) as Hw.
  destruct (fold_left (detector_next open_thr close1) spreads _)
    as [[|] n1];
    destruct (fold_left (detector_next open_thr close2) spreads _)
      as [[|] n2];
    simpl in *; lia.
Qed.

(** The count a run adds does not depend on the count it starts from. *)
Lemma detector_fold_shift o c l : forall d n k,
  fold_left (detector_next o c) l (d, (n + k)%nat)
  = ((fold_left (detector_next o c) l (d, n)).1,
     ((fold_left (detector_next o c) l (d, n)).2 + k)%nat).
Proof.
  induction l as [|s l IH]; intros d n k; simpl; [reflexivity|].
  destruct d; simpl.
  - destruct (s >=? o); apply IH.
  - destruct (s <=? c); [apply (IH WaitingOpen (S n) k)|apply IH].
Qed.

(** Two runs over the same values with the same thresholds, one of them
    at most one step ahead, stay within one cycle of each other. *)
Lemma weight_next_ahead o c st_a st_b s :
  (weight st_b <= weight st_a <= weight st_b + 2)%nat ->
  (weight (detector_next o c st_b s)
   <= weight (detector_next o c st_a s)
   <= weight (detector_next o c st_b s) + 2)%nat.
Proof.
  intros Hw.
  destruct (Nat.eq_dec (weight st_a) (weight st_b)) as [E|E].
  { apply weight_inj in E. subst. lia. }
  destruct (Nat.eq_dec (weight st_a) (weight st_b + 2)%nat) as [E2|E2].
  { destruct st_a as [[|] na], st_b as [[|] nb]; simpl in *;
      try (exfalso; lia);
      assert (na = S nb) by lia; subst na; simpl.
    - destruct (s >=? o); simpl; lia.
    - destruct (s <=? c); simpl; lia. }
  pose proof (weight_next_le o c st_a s).
  pose proof (weight_next_ge o c st_a s).
  pose proof (weight_next_le o c st_b s).
  pose proof (weight_next_ge o c st_b s). lia.
Qed.

Lemma weight_fold_ahead o c l : forall st_a st_b,
  (weight st_b <= weight st_a <= weight st_b + 2)%nat ->
  (weight (fold_left (detector_next o c) l st_b)
   <= weight (fold_left (detector_next o c) l st_a)
   <= weight (fold_left (detector_next o c) l st_b) + 2)%nat.
Proof.
  induction l as [|s l IH]; intros st_a st_b Hw; simpl.
  - exact Hw.
  - apply IH. apply weight_next_ahead. exact Hw.
Qed.

(** X2: Cutting a history in two loses at most one cycle: the one that
    opens before the cut and closes after it. *)
Theorem count_cycles_app (first rest : list F) (open_thr close_thr : F) :
  (count_cycles_for_thresholds first open_thr close_thr
   + count_cycles_for_thresholds rest open_thr close_thr
   <= count_cycles_for_thresholds (first ++ rest) open_thr close_thr
   <= count_cycles_for_thresholds first open_thr close_thr
      + count_cycles_for_thresholds rest open_thr close_thr + 1)%nat.
Proof.
  rewrite !count_cycles_fold, fold_left_app.
  destruct (fold_left (detector_next open_thr close_thr) first
              (WaitingOpen, 0%nat)) as [d n] eqn:E1.
  change (d, n) with (d, (0 + n)%nat). rewrite detector_fold_shift.
  cbn [fst snd].
  assert (Hw : (weight (WaitingOpen, 0%nat) <= weight (d, 0%nat)
                <= weight (WaitingOpen, 0%nat) + 2)%nat)
    by (destruct d; simpl; lia).
  pose proof (weight_fold_ahead open_thr close_thr rest _ _ Hw) as Hf.
  destruct (fold_left (detector_next open_thr close_thr) rest
              (WaitingOpen, 0%nat)) as [[|] nb];
    destruct (fold_left (detector_next open_thr close_thr) rest (d, 0%nat))
      as [[|] na];
    simpl in *; lia.
Qed.
End DetectorMore.

Section DetectorCrossings.
Context {F : Type} `{PyNum F}.
Local Open Scope py_scope.
Implicit Types (d : DetectorState) (n : nat) (s : F) (l : list F).

Lemma detector_fold_count_ge o c l : forall st,
  (st.2 <= (fold_left (detector_next o c) l st).2)%nat.
Proof.
  induction l as [|s l IH]; intros st; simpl; [lia|].
  etransitivity; [|apply IH].
  destruct st as [[|] n]; simpl.
  - destruct (s >=? o); simpl; lia.
  - destruct (s <=? c); simpl; lia.
Qed.

Lemma detector_fold_opens o c l : forall st,
  (weight (fold_left (detector_next o c) l st)
     - (fold_left (detector_next o c) l st).2
   <= weight st - st.2
      + length (filter (fun s => (s >=? o)%py = true) l))%nat.
Proof.
  induction l as [|s l IH]; intros st; simpl; [lia|].
  etransitivity; [apply IH|]. rewrite filter_cons.
  destruct (decide ((s >=? o) = true)) as [Hd|Hd];
    destruct st as [[|] n]; simpl.
  - rewrite Hd. simpl. lia.
  - destruct (s <=? c); simpl; lia.
  - destruct (s >=? o); [congruence|]. simpl. lia.
  - destruct (s <=? c); simpl; lia.
Qed.

Lemma detector_fold_closes o c l : forall st,
  ((fold_left (detector_next o c) l st).2
   <= st.2 + length (filter (fun s => (s <=? c)%py = true) l))%nat.
Proof.
  induction l as [|s l IH]; intros st; simpl; [lia|].
  etransitivity; [apply IH|]. rewrite filter_cons.
  destruct (decide ((s <=? c) = true)) as [Hd|Hd];
    destruct st as [[|] n]; simpl.
  - destruct (s >=? o); simpl; lia.
  - rewrite Hd. simpl. lia.
  - destruct (s >=? o); simpl; lia.
  - destruct (s <=? c); [congruence|]. simpl. lia.
Qed.

Lemma count_cycles_le_opens (spreads : list F) (open_thr close_thr : F) :
  (count_cycles_for_thresholds spreads open_thr close_thr
   <= length (filter (fun s => (s >=? open_thr)%py = true) spreads))%nat.
Proof.
  rewrite count_cycles_fold.
  pose proof (detector_fold_opens open_thr close_thr spreads
                (WaitingOpen, 0%nat)) as Ho.
  pose proof (count_le_weight
                (fold_left (detector_next open_thr close_thr) spreads
                   (WaitingOpen, 0%nat))) as Hc.
  simpl in Ho. lia.
Qed.

(** X3: Every cycle uses up one value that reaches the open threshold and
    one that reaches the close threshold: the count is at most the number
    of either. *)
Theorem count_cycles_at_most_crossings
  (spreads : list F) (open_thr close_thr : F) :
  (count_cycles_for_thresholds spreads open_thr close_thr
   <= length (filter (fun s => (s >=? open_thr)%py = true) spreads))%nat /\
  (count_cycles_for_thresholds spreads open_thr close_thr
   <= length (filter (fun s => (s <=? close_thr)%py = true) spreads))%nat.
Proof.
  split; [apply count_cycles_le_opens|].
  rewrite count_cycles_fold.
  pose proof (detector_fold_closes open_thr close_thr spreads
                (WaitingOpen, 0%nat)) as Hc.
  simpl in Hc. lia.
Qed.

(** From [WaitingClose], the count grows exactly when some value reaches
    the close threshold. *)
Lemma detector_pending_closes o c l : forall n,
  (n < (fold_left (detector_next o c) l (WaitingClose, n)).2)%nat <->
  exists t, t ∈ l /\ (t <=? c) = true.
Proof.
  induction l as [|s l IH]; intros n; simpl.
  - split; [lia|]. intros (t & Ht & _). apply elem_of_nil in Ht. tauto.
  - destruct (s <=? c) eqn:E.
    + split.
      * intros _. exists s. split; [apply elem_of_cons; auto|exact E].
      * intros _.
        pose proof (detector_fold_count_ge o c l (WaitingOpen, S n)).
        simpl in *. lia.
    + rewrite IH. split.
      * intros (t & Ht & Hc). exists t.
        split; [apply elem_of_cons; auto|exact Hc].
      * intros (t & Ht & Hc). apply elem_of_cons in Ht.
        destruct Ht as [->|Ht]; [congruence|]. eauto.
Qed.

Lemma detector_waiting_opens o c l : forall n,
  (n < (fold_left (detector_next o c) l (WaitingOpen, n)).2)%nat <->
  exists before s after t,
    l = before ++ s :: after /\ (s >=? o) = true /\
    t ∈ after /\ (t <=? c) = true.
Proof.
  induction l as [|x l IH]; intros n; simpl.
  - split; [lia|]. intros (before & s & after & t & E & _).
    destruct before; discriminate.
  - destruct (x >=? o) eqn:E.
    + rewrite detector_pending_closes. split.
      * intros (t & Ht & Hc). exists [], x, l, t. auto.
      * intros (before & s & after & t & El & Hs & Ht & Hc).
        exists t. split; [|exact Hc].
        destruct before as [|y before]; simpl in El.
        -- injection El as -> ->. exact Ht.
        -- injection El as -> ->. rewrite elem_of_app, elem_of_cons. auto.
    + rewrite IH. split.
      * intros (before & s & after & t & -> & Hs & Ht & Hc).
        exists (x :: before), s, after, t. auto.
      * intros (before & s & after & t & El & Hs & Ht & Hc).
        destruct before as [|y before]; simpl in El.
        -- injection El as -> ->. congruence.
        -- injection El as -> ->. exists before, s, after, t. auto.
Qed.

(** X4: A threshold pair yields a cycle, and so can enter the report, exactly
    when some value reaches the open threshold and a later one reaches
    the close threshold. *)
Theorem count_cycles_positive_iff
  (spreads : list F) (open_thr close_thr : F) :
  (0 < count_cycles_for_thresholds spreads open_thr close_thr)%nat <->
  exists before s after t,
    spreads = before ++ s :: after /\ (s >=? open_thr) = true /\
    t ∈ after /\ (t <=? close_thr) = true.
Proof. rewrite count_cycles_fold. apply detector_waiting_opens. Qed.
End DetectorCrossings.

(** ** The order of the two assets *)

Lemma calc_spread_list_sym_float (series_a : list float) :
  forall series_b coef,
    calc_spread_list series_a series_b coef
    = calc_spread_list series_b series_a coef.
Proof.
  induction series_a as [|pa series_a IH]; intros [|pb series_b] coef;
    try reflexivity.
  unfold calc_spread_list in *. simpl. f_equal.
  - apply spread_point_sym_float.
  - apply IH.
Qed.

Lemma align_series_swap {F : Type} (a b : list (Z * F)) :
  align_series b a
  = (fun r => (r.1.1, r.2, r.1.2)) <$> align_series a b.
Proof.
  unfold align_series.
  rewrite (comm_L (∩) (dom (dict_of_points b)) (dom (dict_of_points a))).
  destruct (project (dict_of_points a) _), (project (dict_of_points b) _);
    reflexivity.
Qed.

(** X6: On binary64 the report does not depend on which of the two
    assets is listed first: the aligned series are swapped, every spread
    is the same number (the sum is commutative, the absolute difference
    symmetric, and a tie or a NaN gives the same value either way), and
    the sweep returns the same list. *)
Theorem report_independent_of_asset_order
  (cfg : SweepConfig float) (fuel : nat)
  (klines1 klines2 : list (Z * float)) (coef : float) :
  analyze_series cfg fuel (Some klines2) (Some klines1) coef
  = analyze_series cfg fuel (Some klines1) (Some klines2) coef.
Proof.
  unfold analyze_series. rewrite (align_series_swap klines1 klines2).
  destruct (align_series klines1 klines2) as [[[common s1] s2]|]; simpl;
    [|reflexivity].
  rewrite (calc_spread_list_sym_float s2 s1 coef). reflexivity.
Qed.

(** ** Aligning, then computing the spreads *)

Section AlignedSpreads.
Context {F : Type} `{PyNum F}.

Lemma common_timestamps_NoDup (a b : list (Z * F)) :
  NoDup (common_timestamps a b).
Proof.
  unfold common_timestamps. rewrite merge_sort_Permutation.
  apply NoDup_elements.
Qed.

Lemma NoDup_subset_length (l k : list Z) :
  NoDup l -> (forall x, x ∈ l -> x ∈ k) -> (length l <= length k)%nat.
Proof.
  intros Hnd Hsub. apply submseteq_length, NoDup_submseteq; assumption.
Qed.

(** X7: The spread sequence that [analyze_pair] hands to the sweep has
    one value per common timestamp, in increasing order of time: the
    common timestamps are the strictly increasing list of the times that
    occur in both series, and the value at index [i] is the spread of
    the two prices the series hold for the [i]-th of them.  It is never
    longer than either series. *)
Theorem aligned_spread_points (cfg : SweepConfig F) (fuel : nat)
  (a b : list (Z * F)) (coef : F) :
  exists (common : list Z) (spreads : list F),
    analyze_series cfg fuel (Some a) (Some b) coef
    = Report <$> sweep fuel cfg spreads /\
    StronglySorted Z.lt common /\
    (forall ts, ts ∈ common <-> ts ∈ a.*1 /\ ts ∈ b.*1) /\
    length spreads = length common /\
    (length common <= length a)%nat /\ (length common <= length b)%nat /\
    forall i ts, common !! i = Some ts ->
      exists pa pb,
        dict_of_points a !! ts = Some pa /\
        dict_of_points b !! ts = Some pb /\
        spreads !! i = Some (spread_point coef pa pb).
Proof.
  destruct (align_series_total a b) as (sa & sb & Hal).
  exists (common_timestamps a b), (calc_spread_list sa sb coef).
  split; [unfold analyze_series; rewrite Hal; reflexivity|].
  split; [apply common_timestamps_increasing|].
  split; [apply common_timestamps_elem|].
  revert Hal. unfold align_series. fold (common_timestamps a b).
  destruct (project (dict_of_points a) (common_timestamps a b))
    as [sa'|] eqn:Ea; [|discriminate].
  destruct (project (dict_of_points b) (common_timestamps a b))
    as [sb'|] eqn:Eb; [|discriminate].
  intros [= -> ->].
  destruct (project_lookup _ _ _ Ea) as [Hla Hia].
  destruct (project_lookup _ _ _ Eb) as [Hlb Hib].
  assert (Hsub : forall ts, ts ∈ common_timestamps a b ->
                            ts ∈ a.*1 /\ ts ∈ b.*1)
    by (intros ts; apply common_timestamps_elem).
  split; [|split; [|split]].
  - unfold calc_spread_list. rewrite length_map, length_zip_with. lia.
  - rewrite <- (length_fmap fst a).
    apply NoDup_subset_length; [apply common_timestamps_NoDup|].
    intros ts Hts. apply Hsub, Hts.
  - rewrite <- (length_fmap fst b).
    apply NoDup_subset_length; [apply common_timestamps_NoDup|].
    intros ts Hts. apply Hsub, Hts.
  - intros i ts Hi.
    assert (Hin : ts ∈ common_timestamps a b)
      by (apply list_elem_of_lookup; eauto).
    destruct (Hsub ts Hin) as [Hina Hinb].
    apply dict_of_points_dom, elem_of_dom in Hina, Hinb.
    destruct Hina as [pa Hpa], Hinb as [pb Hpb].
    exists pa, pb. split; [exact Hpa|]. split; [exact Hpb|].
    unfold calc_spread_list. change (map ?f ?l) with (f <$> l).
    rewrite list_lookup_fmap, lookup_zip_with.
    rewrite (Hia i ts Hi), (Hib i ts Hi), Hpa, Hpb. reflexivity.
Qed.
End AlignedSpreads.

(** ** The report of the sweep *)

Section ReportShape.
Context {F : Type} `{PyNum F}.
Implicit Types (l : list (F * F * nat)) (report : list (CycleResult F)).

(** A report exists exactly when the enumeration of the grid ended. *)
Lemma sweep_Some_grid fuel cfg spreads report :
  sweep fuel cfg spreads = Some report ->
  exists g, grid fuel cfg = Some g /\
    report = report_entry <$> take 5 (sort_by_cycles (retained spreads g)).
Proof.
  intros Hs. destruct (grid fuel cfg) as [g|] eqn:Hg.
  - exists g. split; [reflexivity|].
    rewrite (sweep_grid fuel cfg spreads g Hg) in Hs. congruence.
  - unfold sweep, grid in *. rewrite open_loop_grid, Hg in Hs. discriminate.
Qed.

Lemma StronglySorted_take_drop (R : F * F * nat -> F * F * nat -> Prop) l k :
  StronglySorted R l ->
  StronglySorted R (take k l) /\
  forall x y, x ∈ take k l -> y ∈ drop k l -> R x y.
Proof.
  intros Hs. revert k.
  induction Hs as [|x l Hs IH Hall]; intros [|k]; simpl.
  - split; [constructor|]. intros x y Hx. apply elem_of_nil in Hx. tauto.
  - split; [constructor|]. intros x y Hx. apply elem_of_nil in Hx. tauto.
  - split; [constructor|]. intros a y Hx. apply elem_of_nil in Hx. tauto.
  - destruct (IH k) as [IH1 IH2]. split.
    + constructor; [exact IH1|].
      apply Forall_forall. intros y Hy.
      apply (proj1 (Forall_forall _ _) Hall).
      rewrite <- (take_drop k l), elem_of_app. auto.
    + intros a y Ha Hy. apply elem_of_cons in Ha. destruct Ha as [->|Ha].
      * apply (proj1 (Forall_forall _ _) Hall).
        rewrite <- (take_drop k l), elem_of_app. auto.
      * apply IH2; assumption.
Qed.

Lemma sweep_report_bounds fuel (cfg : SweepConfig F) (spreads : list F)
  report :
  sweep fuel cfg spreads = Some report ->
  (length report <= 5)%nat /\ Forall (fun r => (0 < cycles r)%nat) report.
Proof.
  intros Hs. destruct (sweep_Some_grid _ _ _ _ Hs) as (g & Hg & ->).
  split; [rewrite length_fmap, length_take; lia|].
  apply Forall_fmap, Forall_forall. intros r Hr. simpl.
  assert (Hin : r ∈ sort_by_cycles (retained spreads g))
    by (rewrite <- (take_drop 5 _), elem_of_app; auto).
  rewrite sort_by_cycles_perm in Hin. unfold retained in Hin.
  apply list_elem_of_filter in Hin. tauto.
Qed.

(** X8: Whatever the configuration, a report the sweep returns has at most 5
    entries, each with a positive cycle count, in decreasing order of the
    count; and it holds the best pairs: an enumerated pair is in the
    report or its count is at most every count of the report. *)
Theorem sweep_report_shape fuel (cfg : SweepConfig F) (spreads : list F)
  report :
  sweep fuel cfg spreads = Some report ->
  (length report <= 5)%nat /\
  Forall (fun r => (0 < cycles r)%nat) report /\
  StronglySorted (fun r1 r2 => (cycles r2 <= cycles r1)%nat) report /\
  exists g, grid fuel cfg = Some g /\
    forall o c, (o, c) ∈ g ->
      report_entry (o, c, count_cycles_for_thresholds spreads o c) ∈ report
      \/ Forall (fun r => (count_cycles_for_thresholds spreads o c
                           <= cycles r)%nat) report.
Proof.
  intros Hs. destruct (sweep_Some_grid _ _ _ _ Hs) as (g & Hg & ->).
  set (ranked := sort_by_cycles (retained spreads g)).
  assert (Hmem : forall r, r ∈ ranked -> r ∈ retained spreads g)
    by (intros r; unfold ranked; rewrite sort_by_cycles_perm; trivial).
  destruct (StronglySorted_take_drop by_cycles_desc ranked 5
              (sort_by_cycles_sorted _)) as [Hsorted Hrest].
  split; [rewrite length_fmap, length_take; lia|].
  split; [|split].
  - apply Forall_fmap, Forall_forall. intros r Hr. simpl.
    assert (Hin : r ∈ ranked)
      by (rewrite <- (take_drop 5 ranked), elem_of_app; auto).
    apply Hmem in Hin. unfold retained in Hin.
    apply list_elem_of_filter in Hin. tauto.
  - clear Hrest. induction Hsorted as [|r l Hl IH Hall]; simpl;
      constructor; [exact IH|].
    apply Forall_fmap. exact Hall.
  - exists g. split; [exact Hg|]. intros o c Hin.
    set (n := count_cycles_for_thresholds spreads o c).
    destruct (Nat.eq_dec n 0) as [E0|Hpos].
    { right. rewrite E0. apply Forall_forall. intros; lia. }
    assert (Hr : (o, c, n) ∈ ranked).
    { unfold ranked. rewrite sort_by_cycles_perm. unfold retained.
      apply list_elem_of_filter. simpl. split; [lia|].
      apply list_elem_of_fmap. exists (o, c). split; [reflexivity|exact Hin]. }
    rewrite <- (take_drop 5 ranked), elem_of_app in Hr.
    destruct Hr as [Hr|Hr].
    + left. apply list_elem_of_fmap. exists (o, c, n). auto.
    + right. apply Forall_fmap, Forall_forall. intros r Hrin. simpl.
      apply (Hrest r (o, c, n) Hrin Hr).
Qed.
End ReportShape.

(** ** The sweep with the module's constants, on binary64 *)

Lemma default_grid_unique fuel g :
  grid fuel (default_config (F := float)) = Some g -> g = default_grid.
Proof.
  intros Hg. destruct (Nat.le_gt_cases fuel 120) as [Hle|Hgt].
  - apply (grid_fuel _ _ _ (120 - fuel)) in Hg.
    replace (fuel + (120 - fuel))%nat with (120 + 0)%nat in Hg by lia.
    rewrite default_grid_enumerated in Hg. congruence.
  - replace fuel with (120 + (fuel - 120))%nat in Hg by lia.
    rewrite default_grid_enumerated in Hg. congruence.
Qed.

Lemma default_grid_pairs_ok :
  Forall (fun oc => threshold_pair_ok oc = true) default_grid.
Proof.
  apply Forall_forall. intros oc Hin.
  assert (Hb : forallb threshold_pair_ok default_grid = true)
    by (vm_compute; reflexivity).
  rewrite forallb_forall in Hb. apply Hb, list_elem_of_In, Hin.
Qed.

(** X9: With the constants of analyzer.py the two loops end for every spread
    series, after 1431 calls of the detector, and return a report. *)
Theorem default_sweep_terminates (spreads : list float) (k : nat) :
  exists report,
    sweep (120 + k) default_config spreads = Some report /\
    report = plain_entry <$>
               take 5 (sort_by_cycles (retained spreads default_grid)) /\
    length default_grid = 1431%nat.
Proof.
  pose proof (default_grid_enumerated k) as Hg.
  eexists. split; [apply (sweep_grid _ _ _ _ Hg)|].
  split; [|apply default_grid_length].
  apply list_fmap_ext. intros i [[o c] n] Hi.
  apply lookup_take_Some in Hi. destruct Hi as [Hi _].
  apply list_elem_of_lookup_2 in Hi.
  rewrite sort_by_cycles_perm in Hi. unfold retained in Hi.
  apply list_elem_of_filter in Hi. destruct Hi as [_ Hi].
  apply list_elem_of_fmap in Hi. destruct Hi as ([o' c'] & [= -> -> ->] & Hin).
  destruct (proj1 (Forall_forall _ _) default_grid_two_decimals _ Hin)
    as [Ho Hc].
  unfold report_entry, plain_entry. simpl in *. rewrite Ho, Hc. reflexivity.
Qed.

(** X10: Every pair of a report made with the constants of analyzer.py is in
    range: [open] between 4 and 30, [close] at least 0 and at least 4
    below [open]. *)
Theorem default_report_thresholds
  (fuel : nat) (spreads : list float) (report : list (CycleResult float)) :
  sweep fuel default_config spreads = Some report ->
  Forall (fun r => threshold_pair_ok (open r, close r) = true) report.
Proof.
  intros Hs. destruct (sweep_Some_grid _ _ _ _ Hs) as (g & Hg & ->).
  apply default_grid_unique in Hg. subst g.
  apply Forall_fmap, Forall_forall. intros [[o c] n] Hi.
  assert (Hi' : (o, c, n) ∈ sort_by_cycles (retained spreads default_grid))
    by (rewrite <- (take_drop 5 (sort_by_cycles _)), elem_of_app; auto).
  clear Hi. rename Hi' into Hi. rewrite sort_by_cycles_perm in Hi.
  unfold retained in Hi. apply list_elem_of_filter in Hi.
  destruct Hi as [_ Hi]. apply list_elem_of_fmap in Hi.
  destruct Hi as ([o' c'] & [= -> -> ->] & Hin).
  destruct (proj1 (Forall_forall _ _) default_grid_two_decimals _ Hin)
    as [Ho Hc].
  simpl in *. rewrite Ho, Hc.
  exact (proj1 (Forall_forall _ _) default_grid_pairs_ok _ Hin).
Qed.

(** X11: When no spread reaches [OPEN_MIN], and so for the empty series, the
    report is the empty list. *)
Theorem default_sweep_below_open_min (spreads : list float) (k : nat) :
  Forall (fun s => (lit 4 <=? s)%py = false) spreads ->
  sweep (120 + k) default_config spreads = Some [].
Proof.
  intros Hlow. rewrite (sweep_grid _ _ _ _ (default_grid_enumerated k)).
  assert (Hnil : retained spreads default_grid = []).
  { apply elem_of_nil_inv. intros [[o c] n] Hin. unfold retained in Hin.
    apply list_elem_of_filter in Hin. destruct Hin as [Hpos Hin].
    apply list_elem_of_fmap in Hin.
    destruct Hin as ([o' c'] & [= -> -> ->] & Hin). simpl in *.
    pose proof (count_cycles_le_opens spreads o' c') as Hc.
    assert (Hf : filter (fun s => (s >=? o')%py = true) spreads = []).
    { apply elem_of_nil_inv. intros s Hs. apply list_elem_of_filter in Hs.
      destruct Hs as [Hge Hs].
      pose proof (proj1 (Forall_forall _ _) Hlow _ Hs) as Hs4. simpl in Hs4.
      pose proof (proj1 (Forall_forall _ _) default_grid_pairs_ok _ Hin)
        as Hok.
      unfold threshold_pair_ok in Hok. simpl in Hok.
      apply andb_prop in Hok. destruct Hok as [Hok _].
      apply andb_prop in Hok. destruct Hok as [Hok _].
      apply andb_prop in Hok. destruct Hok as [H4 _].
      pose proof (num_leb_trans (F := float) (lit 4) o' s H4 Hge) as Ht.
      simpl in Ht. congruence. }
    rewrite Hf in Hc. simpl in Hc. lia. }
  rewrite Hnil. reflexivity.
Qed.

(** ** The cache and the report of the orchestrator *)

Section OrchestratorMore.
Context {F : Type} `{PyNum F} {World : Type}.
Variable fetch : string -> World -> option (list (Z * F)) * World.
Variable cfg : SweepConfig F.
Variable fuel : nat.
Implicit Types (cache : gmap string (list (Z * F))) (w : World).
Implicit Types (st : MainState (F := F) (World := World)).
Implicit Types (pairs : list (string * PairInfo F)).

Lemma fetch_cached_hit key cache w kl :
  cache !! key = Some kl -> fetch_cached fetch key cache w = (Some cache, w).
Proof. intros Hk. unfold fetch_cached. rewrite Hk. reflexivity. Qed.

Lemma fetch_cached_Some key cache w cache' w' :
  fetch_cached fetch key cache w = (Some cache', w') ->
  is_Some (cache' !! key) /\
  forall k v, cache !! k = Some v -> cache' !! k = Some v.
Proof.
  unfold fetch_cached. destruct (cache !! key) as [kl|] eqn:Hk.
  - intros [= <- <-]. split; [eauto|auto].
  - destruct (fetch key w) as [[kl|] w1]; intros [= <- <-].
    split; [rewrite lookup_insert_eq; eauto|].
    intros k v Hv. rewrite lookup_insert_ne; [exact Hv|]. congruence.
Qed.

Lemma fetch_cached_None key cache w w' :
  fetch_cached fetch key cache w = (None, w') -> cache !! key = None.
Proof.
  unfold fetch_cached. destruct (cache !! key); [discriminate|reflexivity].
Qed.

(** An entry of the cache is never dropped or replaced by a call. *)
Lemma analyze_pair_cache_kept p1 p2 c cache w out cache' w' :
  analyze_pair fetch cfg fuel p1 p2 c cache w = (out, cache', w') ->
  forall k v, cache !! k = Some v -> cache' !! k = Some v.
Proof.
  unfold analyze_pair.
  destruct (fetch_cached fetch p1 cache w) as [[cache1|] w1] eqn:E1.
  - destruct (fetch_cached_Some _ _ _ _ _ E1) as [_ K1].
    destruct (fetch_cached fetch p2 cache1 w1) as [[cache2|] w2] eqn:E2.
    + destruct (fetch_cached_Some _ _ _ _ _ E2) as [_ K2].
      intros [= <- <- <-]. auto.
    + intros [= <- <- <-]. auto.
  - intros [= <- <- <-]. auto.
Qed.

(** X12: Fetch-once: when both series are in the cache, [analyze_pair] asks
    the data source for nothing, leaves the cache as it is and analyses
    the cached series. *)
Theorem analyze_pair_uses_cache p1 p2 c cache w (k1 k2 : list (Z * F)) :
  cache !! p1 = Some k1 -> cache !! p2 = Some k2 ->
  analyze_pair fetch cfg fuel p1 p2 c cache w
  = (analyze_series cfg fuel (Some k1) (Some k2) c, cache, w).
Proof.
  intros H1 H2. unfold analyze_pair.
  rewrite (fetch_cached_hit p1 cache w k1 H1).
  rewrite (fetch_cached_hit p2 cache w k2 H2), H1, H2. reflexivity.
Qed.

(** X13: No lookup of [analyze_pair] raises [KeyError]: the call returns
    [None], for a failed fetch, or what the sweep gives on some spread
    series. *)
Theorem analyze_pair_never_raises p1 p2 c cache w :
  (analyze_pair fetch cfg fuel p1 p2 c cache w).1.1 = Some NoData \/
  exists spreads : list F,
    (analyze_pair fetch cfg fuel p1 p2 c cache w).1.1
    = Report <$> sweep fuel cfg spreads.
Proof.
  unfold analyze_pair.
  destruct (fetch_cached fetch p1 cache w) as [[cache1|] w1] eqn:E1;
    [|left; reflexivity].
  destruct (fetch_cached_Some _ _ _ _ _ E1) as [[kl1 K1] _].
  destruct (fetch_cached fetch p2 cache1 w1) as [[cache2|] w2] eqn:E2;
    [|left; reflexivity].
  destruct (fetch_cached_Some _ _ _ _ _ E2) as [[kl2 K2] Kept].
  right. simpl. rewrite (Kept _ _ K1), K2. unfold analyze_series.
  destruct (align_series_total kl1 kl2) as (sa & sb & ->).
  eexists. reflexivity.
Qed.

Lemma main_step_report_ok pairs st e st' :
  report_ok pairs st -> e ∈ pairs ->
  main_step fetch cfg fuel st e = Some st' -> report_ok pairs st'.
Proof.
  intros Hok Hin. destruct e as [p1 info]. unfold main_step.
  destruct (analyze_pair fetch cfg fuel p1 (pair2 info) _ _ _)
    as [[[[|res|]|] cache'] w'] eqn:E; intros [= <-]; try exact Hok.
  intros k report. simpl.
  destruct (decide (pair_key p1 (pair2 info) = k)) as [<-|Hne].
  - rewrite lookup_insert_eq. intros [= <-].
    split; [exists (p1, info); auto|].
    unfold analyze_pair in E.
    destruct (fetch_cached fetch p1 _ _) as [[cache1|] w1];
      [|discriminate].
    destruct (fetch_cached fetch (pair2 info) cache1 w1) as [[cache2|] w2];
      [|discriminate].
    injection E as E _ _. unfold analyze_series in E.
    destruct (cache2 !! p1), (cache2 !! pair2 info); try discriminate.
    destruct (align_series _ _) as [[[common s1] s2]|]; [|discriminate].
    destruct (sweep fuel cfg _) as [report|] eqn:Es; [|discriminate].
    injection E as <-.
    destruct (sweep_report_bounds _ _ _ _ Es) as (Hlen & Hpos). auto.
  - rewrite lookup_insert_ne by exact Hne. apply Hok.
Qed.

Lemma main_loop_report_ok pairs rest : forall st st',
  report_ok pairs st -> (forall e, e ∈ rest -> e ∈ pairs) ->
  main_loop fetch cfg fuel rest st = Some st' -> report_ok pairs st'.
Proof.
  induction rest as [|e rest IH]; intros st st' Hok Hsub; simpl.
  - intros [= <-]. exact Hok.
  - destruct (main_step fetch cfg fuel st e) as [st1|] eqn:E;
      [|discriminate].
    apply IH.
    + apply (main_step_report_ok pairs st e st1 Hok); [|exact E].
      apply Hsub, elem_of_cons. auto.
    + intros e' He'. apply Hsub, elem_of_cons. auto.
Qed.

(** X14: When [main] finishes, every key of the analysis is the key of a
    configured combination, and the list under it has at most 5 records,
    each with a positive cycle count. *)
Theorem main_report_well_formed pairs (w0 : World) st_end :
  main fetch cfg fuel pairs w0 = Some st_end ->
  forall k report, analysis st_end !! k = Some report ->
    (exists e, e ∈ pairs /\ entry_key e = k) /\
    (length report <= 5)%nat /\
    Forall (fun r => (0 < cycles r)%nat) report.
Proof.
  intros Hmain.
  apply (main_loop_report_ok pairs pairs
           {| klines_cache := ∅; analysis := ∅; world := w0 |} st_end);
    [|auto|exact Hmain].
  intros k report. simpl. rewrite lookup_empty. discriminate.
Qed.
End OrchestratorMore.

(** ** Fetch-once, observed on a data source that logs its calls *)

Section FetchOnce.
Context {F : Type} `{PyNum F}.
Variable table : string -> option (list (Z * F)).
Variable cfg : SweepConfig F.
Variable fuel : nat.
Implicit Types (cache : gmap string (list (Z * F))) (log : list string).

Lemma calls_snoc s log x :
  calls s (log ++ [x]) = (calls s log + (if decide (x = s) then 1 else 0))%nat.
Proof.
  unfold calls. rewrite filter_app, length_app, filter_cons, filter_nil.
  destruct (decide (x = s)); reflexivity.
Qed.

Lemma calls_zero s log : s ∉ log -> calls s log = 0%nat.
Proof.
  unfold calls. induction log as [|x log IH]; intros Hn; [reflexivity|].
  apply not_elem_of_cons in Hn. destruct Hn as [Hx Hn].
  rewrite filter_cons, decide_False by congruence. apply IH, Hn.
Qed.

Lemma fetch_cached_logged_ok key cache log o log' :
  cache_log_ok table cache log ->
  fetch_cached (logged_source table) key cache log = (o, log') ->
  cache_log_ok table (default cache o) log'.
Proof.
  intros (Ht & Hc & Hn). unfold fetch_cached, logged_source.
  destruct (cache !! key) as [kl|] eqn:Hk.
  - intros [= <- <-]. simpl. repeat split; assumption.
  - destruct (table key) as [kl|] eqn:Hf; intros [= <- <-]; simpl.
    + split; [|split].
      * intros s kl'. destruct (decide (key = s)) as [<-|Hne].
        -- rewrite lookup_insert_eq. congruence.
        -- rewrite lookup_insert_ne by exact Hne. apply Ht.
      * intros s Hs Hin. destruct (decide (key = s)) as [<-|Hne].
        -- rewrite lookup_insert_eq. eauto.
        -- rewrite lookup_insert_ne by exact Hne. apply Hc; [exact Hs|].
           apply elem_of_app in Hin. destruct Hin as [Hin|Hin]; [exact Hin|].
           apply list_elem_of_singleton in Hin. congruence.
      * intros s Hs. rewrite calls_snoc.
        destruct (decide (key = s)) as [<-|Hne]; [|specialize (Hn s Hs); lia].
        rewrite calls_zero; [lia|]. intros Hin.
        destruct (Hc key Hs Hin) as [v Hv]. congruence.
    + split; [exact Ht|split].
      * intros s Hs Hin. apply Hc; [exact Hs|].
        apply elem_of_app in Hin. destruct Hin as [Hin|Hin]; [exact Hin|].
        apply list_elem_of_singleton in Hin. subst s.
        rewrite Hf in Hs. destruct Hs; discriminate.
      * intros s Hs. rewrite calls_snoc.
        destruct (decide (key = s)) as [<-|Hne]; [|specialize (Hn s Hs); lia].
        rewrite Hf in Hs. destruct Hs; discriminate.
Qed.

Lemma analyze_pair_logged_ok p1 p2 c cache log out cache' log' :
  cache_log_ok table cache log ->
  analyze_pair (logged_source table) cfg fuel p1 p2 c cache log
  = (out, cache', log') ->
  cache_log_ok table cache' log'.
Proof.
  intros Hok. unfold analyze_pair.
  destruct (fetch_cached (logged_source table) p1 cache log)
    as [o1 log1] eqn:E1.
  pose proof (fetch_cached_logged_ok _ _ _ _ _ Hok E1) as Hok1.
  destruct o1 as [cache1|]; simpl in Hok1.
  - destruct (fetch_cached (logged_source table) p2 cache1 log1)
      as [o2 log2] eqn:E2.
    pose proof (fetch_cached_logged_ok _ _ _ _ _ Hok1 E2) as Hok2.
    destruct o2 as [cache2|]; simpl in Hok2; intros [= <- <- <-]; assumption.
  - intros [= <- <- <-]. assumption.
Qed.

Lemma main_loop_logged_ok pairs : forall st st',
  cache_log_ok table (klines_cache st) (world st) ->
  main_loop (logged_source table) cfg fuel pairs st = Some st' ->
  cache_log_ok table (klines_cache st') (world st').
Proof.
  induction pairs as [|[p1 info] pairs IH]; intros st st' Hok; simpl.
  - intros [= <-]. exact Hok.
  - destruct (analyze_pair (logged_source table) cfg fuel p1 (pair2 info)
                _ (klines_cache st) (world st))
      as [[out cache'] log'] eqn:E.
    pose proof (analyze_pair_logged_ok _ _ _ _ _ _ _ _ Hok E) as Hok'.
    destruct out as [[|res|]|]; try discriminate;
      apply IH; exact Hok'.
Qed.

(** X15: Over a whole run, a symbol the source can deliver is asked for at
    most once, however many combinations share it, and the cache holds
    for a symbol what the source delivered. *)
Theorem main_fetches_once pairs st_end :
  main (logged_source table) cfg fuel pairs [] = Some st_end ->
  (forall s, is_Some (table s) -> (calls s (world st_end) <= 1)%nat) /\
  (forall s kl, klines_cache st_end !! s = Some kl -> table s = Some kl).
Proof.
  intros Hmain. unfold main in Hmain.
  apply main_loop_logged_ok in Hmain.
  - destruct Hmain as (Ht & _ & Hn). auto.
  - simpl. split; [|split].
    + intros s kl. rewrite lookup_empty. discriminate.
    + intros s _ Hin. apply elem_of_nil in Hin. tauto.
    + intros s _. unfold calls. simpl. lia.
Qed.
End FetchOnce.

(** ** The live monitor and the analyzer *)

Section LiveMore.
Context {F : Type} `{PyNum F}.
Local Open Scope py_scope.
Implicit Types (state : BotState) (polls : list (option F * option F * Z)).

(** The bot computes the spread of a poll as the analyzer computes the
    spread of a point: same scaling, and the caught division by zero
    gives the 0 of the analyzer's guard. *)
Lemma live_spread_is_spread_point (coef price1 price2 : F) :
  (let '(scaled1, scaled2) :=
     if price1 <? price2 then (price1 * coef, price2)
     else (price1, price2 * coef) in
   calc_spread scaled1 scaled2)
  = spread_point coef price1 price2.
Proof.
  unfold spread_point, calc_spread, truediv.
  destruct (price1 <? price2); simpl;
    destruct (_ =? lit 0); reflexivity.
Qed.

Lemma check_pair_state p1 p2 coef o c state price1 price2 now :
  (check_pair p1 p2 coef o c state (Some price1) (Some price2) now).1
  = monitor_step (pair_key p1 p2) o c state
      (spread_point coef price1 price2, now).
Proof.
  unfold check_pair, monitor_step.
  rewrite <- (live_spread_is_spread_point coef price1 price2).
  destruct (price1 <? price2);
    destruct (get_direction_names _ _ _ _) as [long_name short_name];
    destruct (String.eqb _ "inactive" && _);
    try reflexivity;
    destruct (String.eqb _ "active" && _); reflexivity.
Qed.

Lemma check_pair_missing p1 p2 coef o c state price1 price2 now :
  price1 = None \/ price2 = None ->
  check_pair p1 p2 coef o c state price1 price2 now = (state, None).
Proof.
  intros [->| ->]; unfold check_pair; [|destruct price1]; reflexivity.
Qed.

Lemma check_pair_run_state p1 p2 coef o c polls : forall state,
  (check_pair_run p1 p2 coef o c state polls).1
  = monitor_run (pair_key p1 p2) o c state
      ((fun p => (spread_point coef p.1.1 p.1.2, p.2))
         <$> complete_polls polls).
Proof.
  induction polls as [|[[price1 price2] now] polls IH]; intros state;
    [reflexivity|].
  cbn [check_pair_run].
  destruct (check_pair p1 p2 coef o c state price1 price2 now)
    as [state' msg] eqn:E.
  specialize (IH state').
  destruct (check_pair_run p1 p2 coef o c state' polls) as [state'' msgs].
  cbn [fst] in *. rewrite IH.
  destruct price1 as [x|], price2 as [y|]; cbn [complete_polls omap].
  - pose proof (check_pair_state p1 p2 coef o c state x y now) as Hs.
    rewrite E in Hs. cbn [fst] in Hs. subst state'. reflexivity.
  - rewrite check_pair_missing in E by auto. injection E as <- <-.
    reflexivity.
  - rewrite check_pair_missing in E by auto. injection E as <- <-.
    reflexivity.
  - rewrite check_pair_missing in E by auto. injection E as <- <-.
    reflexivity.
Qed.

Lemma calc_spread_list_unzip (coef : F) (prices : list (F * F * Z)) :
  calc_spread_list ((fun p => p.1.1) <$> prices)
    ((fun p => p.1.2) <$> prices) coef
  = (fun p => spread_point coef p.1.1 p.1.2) <$> prices.
Proof.
  unfold calc_spread_list.
  induction prices as [|[[x y] now] prices IH]; [reflexivity|].
  cbn [fmap list_fmap zip_with map fst snd].
  f_equal. exact IH.
Qed.

(** X16: Offline and live counts agree: polling a pair that starts inactive
    records as many cycles as the analyzer counts on the price pairs of
    the polls in which both prices arrived, with the same coefficient and
    thresholds; a poll with a missing price changes nothing. *)
Theorem live_monitor_matches_analyzer
  (p1 p2 : string) (coef open_spread close_spread : F) state polls :
  current_status (pair_key p1 p2) state = "inactive" ->
  recorded_cycles (pair_key p1 p2)
    (check_pair_run p1 p2 coef open_spread close_spread state polls).1
  = (recorded_cycles (pair_key p1 p2) state
     + count_cycles_for_thresholds
         (calc_spread_list ((fun p => p.1.1) <$> complete_polls polls)
            ((fun p => p.1.2) <$> complete_polls polls) coef)
         open_spread close_spread)%nat.
Proof.
  intros Hst. rewrite check_pair_run_state, calc_spread_list_unzip.
  rewrite count_cycles_fold.
  destruct (monitor_run_next (pair_key p1 p2) open_spread close_spread
              ((fun p => (spread_point coef p.1.1 p.1.2, p.2))
                 <$> complete_polls polls)
              state WaitingOpen 0 Hst) as [_ Hc].
  rewrite <- list_fmap_compose in Hc.
  change (fst ∘ _) with (fun p : F * F * Z => spread_point coef p.1.1 p.1.2)
    in Hc.
  lia.
Qed.
End LiveMore.

(** ** The messages of the live monitor *)

Section LiveAlerts.
Context {F : Type} `{PyNum F}.
Local Open Scope py_scope.
Implicit Types (state : BotState) (polls : list (option F * option F * Z)).

Lemma check_pair_alert p1 p2 coef o c state d price1 price2 now :
  current_status (pair_key p1 p2) state = status_name d ->
  match check_pair p1 p2 coef o c state price1 price2 now with
  | (state', None) => state' = state
  | (state', Some m) =>
      alert_kind m = kind_after d /\ alert_justified o c m /\
      current_status (pair_key p1 p2) state' = status_name (flip_state d) /\
      recorded_cycles (pair_key p1 p2) state'
      = (recorded_cycles (pair_key p1 p2) state
         + (if is_closing m then 1 else 0))%nat
  end.
Proof.
  intros Hst. unfold check_pair.
  destruct price1 as [x|]; [|reflexivity].
  destruct price2 as [y|]; [|reflexivity].
  destruct (if x <? y then _ else _) as [scaled1 scaled2].
  destruct (get_direction_names _ _ _ _) as [long_name short_name].
  rewrite Hst.
  unfold alert_justified, is_closing, recorded_cycles, current_status.
  destruct d; simpl.
  - destruct (calc_spread scaled1 scaled2 >=? o) eqn:E; simpl;
      [|reflexivity].
    rewrite lookup_insert_eq. repeat split; [exact E|lia].
  - destruct (calc_spread scaled1 scaled2 <=? c) eqn:E; simpl;
      [|reflexivity].
    rewrite !lookup_insert_eq. simpl. rewrite length_app. simpl.
    repeat split; exact E.
Qed.

Lemma check_pair_run_alerts p1 p2 coef o c polls : forall state d,
  current_status (pair_key p1 p2) state = status_name d ->
  alternates (kind_after d)
    (alert_kind <$> (check_pair_run p1 p2 coef o c state polls).2) /\
  Forall (alert_justified o c)
    (check_pair_run p1 p2 coef o c state polls).2 /\
  recorded_cycles (pair_key p1 p2)
    (check_pair_run p1 p2 coef o c state polls).1
  = (recorded_cycles (pair_key p1 p2) state
     + length (filter (fun m => is_closing m = true)
                 (check_pair_run p1 p2 coef o c state polls).2))%nat.
Proof.
  induction polls as [|[[price1 price2] now] polls IH]; intros state d Hst.
  - simpl. repeat split; [constructor|lia].
  - cbn [check_pair_run].
    pose proof (check_pair_alert p1 p2 coef o c state d price1 price2 now
                  Hst) as Hstep.
    destruct (check_pair p1 p2 coef o c state price1 price2 now)
      as [state' [m|]].
    + destruct Hstep as (Hk & Hj & Hst' & Hrec).
      destruct (IH state' (flip_state d) Hst') as (Ha & Hf & Hc).
      destruct (check_pair_run p1 p2 coef o c state' polls)
        as [state'' msgs].
      cbn [fst snd] in *. split; [|split].
      * simpl. split; [exact Hk|]. destruct d; exact Ha.
      * constructor; assumption.
      * rewrite filter_cons, Hc, Hrec.
        destruct (decide (is_closing m = true)) as [E|E]; simpl.
        -- rewrite E. lia.
        -- destruct (is_closing m); [congruence|lia].
    + subst state'. destruct (IH state d Hst) as (Ha & Hf & Hc).
      destruct (check_pair_run p1 p2 coef o c state polls)
        as [state'' msgs].
      cbn [fst snd] in *. auto.
Qed.

(** X17: The messages of a pair that starts inactive alternate, the first
    being an opening; the spread of every opening message is at least the
    open threshold and that of every closing message at most the close
    threshold; and one cycle is logged for each closing message. *)
Theorem alerts_alternate_and_log
  (p1 p2 : string) (coef open_spread close_spread : F) state polls :
  current_status (pair_key p1 p2) state = "inactive" ->
  alternates Opening
    (alert_kind
       <$> (check_pair_run p1 p2 coef open_spread close_spread
              state polls).2) /\
  Forall (alert_justified open_spread close_spread)
    (check_pair_run p1 p2 coef open_spread close_spread state polls).2 /\
  recorded_cycles (pair_key p1 p2)
    (check_pair_run p1 p2 coef open_spread close_spread state polls).1
  = (recorded_cycles (pair_key p1 p2) state
     + length (filter (fun m => is_closing m = true)
                 (check_pair_run p1 p2 coef open_spread close_spread
                    state polls).2))%nat.
Proof.
  intros Hst.
  exact (check_pair_run_alerts p1 p2 coef open_spread close_spread polls
           state WaitingOpen Hst).
Qed.

(** X18: A status that is neither of the two names stops the pair: no poll
    changes the state or sends a message. *)
Theorem unknown_status_is_stuck
  (p1 p2 : string) (coef open_spread close_spread : F) state polls :
  current_status (pair_key p1 p2) state <> "inactive" ->
  current_status (pair_key p1 p2) state <> "active" ->
  check_pair_run p1 p2 coef open_spread close_spread state polls
  = (state, []).
Proof.
  intros Hi Ha.
  induction polls as [|[[price1 price2] now] polls IH]; [reflexivity|].
  cbn [check_pair_run].
  assert (E : check_pair p1 p2 coef open_spread close_spread state
                price1 price2 now = (state, None)).
  { unfold check_pair.
    destruct price1 as [x|]; [|reflexivity].
    destruct price2 as [y|]; [|reflexivity].
    destruct (if x <? y then _ else _) as [scaled1 scaled2].
    destruct (get_direction_names _ _ _ _) as [long_name short_name].
    apply String.eqb_neq in Hi, Ha. rewrite Hi, Ha. reflexivity. }
  rewrite E, IH. reflexivity.
Qed.

(** X19: Polling one pair leaves the status and the log of every other key as
    they were. *)
Theorem check_pair_run_other_keys
  (p1 p2 : string) (coef open_spread close_spread : F) state polls
  (key : string) :
  key <> pair_key p1 p2 ->
  status (check_pair_run p1 p2 coef open_spread close_spread
            state polls).1 !! key = status state !! key /\
  cycle_log (check_pair_run p1 p2 coef open_spread close_spread
               state polls).1 !! key = cycle_log state !! key.
Proof.
  intros Hne. revert state.
  induction polls as [|[[price1 price2] now] polls IH]; intros state;
    [split; reflexivity|].
  cbn [check_pair_run].
  assert (Hstep :
    status (check_pair p1 p2 coef open_spread close_spread state
              price1 price2 now).1 !! key = status state !! key /\
    cycle_log (check_pair p1 p2 coef open_spread close_spread state
                 price1 price2 now).1 !! key = cycle_log state !! key).
  { unfold check_pair.
    destruct price1 as [x|]; [|split; reflexivity].
    destruct price2 as [y|]; [|split; reflexivity].
    destruct (if x <? y then _ else _) as [scaled1 scaled2].
    destruct (get_direction_names _ _ _ _) as [long_name short_name].
    destruct (String.eqb _ "inactive" && _); simpl.
    - rewrite lookup_insert_ne by congruence. split; reflexivity.
    - destruct (String.eqb _ "active" && _); simpl;
        [|split; reflexivity].
      rewrite !lookup_insert_ne by congruence. split; reflexivity. }
  destruct (check_pair p1 p2 coef open_spread close_spread state
              price1 price2 now) as [state' msg].
  specialize (IH state').
  destruct (check_pair_run p1 p2 coef open_spread close_spread state' polls)
    as [state'' msgs].
  cbn [fst] in *. destruct IH as [-> ->]. exact Hstep.
Qed.

(** X20: The log of the polled pair only grows: what was logged stays, in
    place, and what is appended are times of the polls, in their order. *)
Theorem cycle_log_append_only
  (p1 p2 : string) (coef open_spread close_spread : F) state polls :
  exists closes : list Z,
    default [] (cycle_log
                  (check_pair_run p1 p2 coef open_spread close_spread
                     state polls).1 !! pair_key p1 p2)
    = default [] (cycle_log state !! pair_key p1 p2) ++ closes /\
    sublist closes (polls.*2).
Proof.
  revert state.
  induction polls as [|[[price1 price2] now] polls IH]; intros state.
  - exists []. simpl. rewrite app_nil_r. split; [reflexivity|constructor].
  - cbn [check_pair_run].
    assert (Hstep :
      let state' := (check_pair p1 p2 coef open_spread close_spread state
                       price1 price2 now).1 in
      exists first : list Z,
        default [] (cycle_log state' !! pair_key p1 p2)
        = default [] (cycle_log state !! pair_key p1 p2) ++ first /\
        sublist first [now]).
    { unfold check_pair.
      assert (Hsame : exists first : list Z,
                default [] (cycle_log state !! pair_key p1 p2)
                = default [] (cycle_log state !! pair_key p1 p2) ++ first /\
                sublist first [now]).
      { exists []. rewrite app_nil_r. split; [reflexivity|].
        apply sublist_nil_l. }
      destruct price1 as [x|]; [|exact Hsame].
      destruct price2 as [y|]; [|exact Hsame].
      destruct (if x <? y then _ else _) as [scaled1 scaled2].
      destruct (get_direction_names _ _ _ _) as [long_name short_name].
      destruct (String.eqb _ "inactive" && _); simpl; [exact Hsame|].
      destruct (String.eqb _ "active" && _); simpl; [|exact Hsame].
      exists [now]. rewrite lookup_insert_eq. split; reflexivity. }
    destruct (check_pair p1 p2 coef open_spread close_spread state
                price1 price2 now) as [state' msg].
    destruct (IH state') as (closes & Hlog & Hsub).
    destruct (check_pair_run p1 p2 coef open_spread close_spread state'
                polls) as [state'' msgs].
    cbn [fst] in *. destruct Hstep as (first & Hfirst & Hsub1).
    exists (first ++ closes). split.
    + rewrite Hlog, Hfirst, app_assoc. reflexivity.
    + change ((price1, price2, now) :: polls).*2 with ([now] ++ polls.*2).
      apply sublist_app; assumption.
Qed.
End LiveAlerts.

(** ** Parsing the rows of a candle response *)

Section KlinesMore.
Context {F J : Type}.
Variable to_int : J -> option Z.
Variable to_float : J -> option F.

Lemma kline_point_Some (row : list J) (ts : Z) (close_price : F) :
  kline_point to_int to_float row = Some (ts, close_price) <->
  exists r0 r4, row !! 0%nat = Some r0 /\ row !! 4%nat = Some r4 /\
                to_int r0 = Some ts /\ to_float r4 = Some close_price.
Proof.
  unfold kline_point. split.
  - destruct (row !! 0%nat) as [r0|]; [|discriminate].
    destruct (row !! 4%nat) as [r4|]; [|discriminate].
    destruct (to_int r0) as [ts'|] eqn:Ei; [|discriminate].
    destruct (to_float r4) as [cp|] eqn:Ef; [|discriminate].
    intros [= <- <-]. exists r0, r4. auto.
  - intros (r0 & r4 & -> & -> & -> & ->). reflexivity.
Qed.

(** X21: A successful parse gives one point per row, in the order of the rows:
    the time is field 0 read as an integer and the price field 4 read as
    a float. *)
Theorem klines_of_rows_in_order (data : list (list J))
  (res : list (Z * F)) :
  klines_of_rows to_int to_float data = Some res ->
  length res = length data /\
  forall (i : nat) (row : list J), data !! i = Some row ->
    exists r0 r4 ts close_price,
      row !! 0%nat = Some r0 /\ row !! 4%nat = Some r4 /\
      to_int r0 = Some ts /\ to_float r4 = Some close_price /\
      res !! i = Some (ts, close_price).
Proof.
  unfold klines_of_rows. intros Hm. apply mapM_Some in Hm.
  split; [symmetry; eapply Forall2_length, Hm|].
  intros i row Hi.
  destruct (Forall2_lookup_l _ _ _ _ _ Hm Hi) as ([ts cp] & Hr & Hp).
  apply kline_point_Some in Hp. destruct Hp as (r0 & r4 & ? & ? & ? & ?).
  exists r0, r4, ts, cp. auto.
Qed.

(** X22: One bad row loses the whole response: a row with fewer than five
    fields, or whose field 0 is no integer, or whose field 4 is no float,
    makes the result [None] whatever the other rows are. *)
Theorem klines_bad_row_fails (data : list (list J)) (row : list J) :
  row ∈ data ->
  (length row < 5)%nat \/
  (exists r0, row !! 0%nat = Some r0 /\ to_int r0 = None) \/
  (exists r4, row !! 4%nat = Some r4 /\ to_float r4 = None) ->
  klines_of_rows to_int to_float data = None.
Proof.
  intros Hin Hbad. unfold klines_of_rows.
  destruct (mapM (kline_point to_int to_float) data) as [res|] eqn:E;
    [|reflexivity].
  exfalso. apply mapM_Some in E.
  apply list_elem_of_lookup in Hin. destruct Hin as [i Hi].
  destruct (Forall2_lookup_l _ _ _ _ _ E Hi) as ([ts cp] & _ & Hp).
  apply kline_point_Some in Hp.
  destruct Hp as (r0 & r4 & H0 & H4 & Hi0 & Hf4).
  destruct Hbad as [Hlen|[(r & Hr & Hn)|(r & Hr & Hn)]].
  - apply lookup_lt_Some in H4. lia.
  - congruence.
  - congruence.
Qed.
End KlinesMore.

(** ** The ranking of the [/spread] command *)

Section Ranking.
Context {A : Type}.
Variable key : A -> nat.

Lemma insert_desc_perm (x : A) (l : list A) : insert_desc key x l ≡ₚ x :: l.
Proof.
  induction l as [|y l IH]; simpl; [reflexivity|].
  destruct (key x <? key y)%nat; [|reflexivity].
  rewrite IH. apply Permutation_swap.
Qed.

Lemma sort_desc_perm (l : list A) : sort_desc key l ≡ₚ l.
Proof.
  induction l as [|x l IH]; simpl; [reflexivity|].
  rewrite insert_desc_perm, IH. reflexivity.
Qed.

Lemma insert_desc_sorted (x : A) (l : list A) :
  StronglySorted (fun a b => (key b <= key a)%nat) l ->
  StronglySorted (fun a b => (key b <= key a)%nat) (insert_desc key x l).
Proof.
  induction 1 as [|y l Hs IH Hall]; simpl.
  - repeat constructor.
  - destruct (key x <? key y)%nat eqn:E.
    + apply Nat.ltb_lt in E. constructor; [exact IH|].
      rewrite insert_desc_perm. constructor; [lia|exact Hall].
    + apply Nat.ltb_ge in E. constructor; [constructor; assumption|].
      constructor; [exact E|].
      eapply Forall_impl; [exact Hall|]. simpl. intros z Hz. lia.
Qed.

Lemma sort_desc_sorted (l : list A) :
  StronglySorted (fun a b => (key b <= key a)%nat) (sort_desc key l).
Proof.
  induction l as [|x l IH]; simpl; [constructor|].
  apply insert_desc_sorted, IH.
Qed.

Lemma insert_desc_stable (n : nat) (x : A) (l : list A) :
  filter (fun r => key r = n) (insert_desc key x l)
  = filter (fun r => key r = n) (x :: l).
Proof.
  induction l as [|y l IH]; simpl; [reflexivity|].
  destruct (key x <? key y)%nat eqn:E; [|reflexivity].
  apply Nat.ltb_lt in E.
  rewrite (filter_cons _ y), IH, !filter_cons.
  destruct (decide (key y = n)), (decide (key x = n)); try reflexivity.
  lia.
Qed.

Lemma sort_desc_stable (n : nat) (l : list A) :
  filter (fun r => key r = n) (sort_desc key l)
  = filter (fun r => key r = n) l.
Proof.
  induction l as [|x l IH]; simpl; [reflexivity|].
  rewrite insert_desc_stable, !filter_cons, IH. reflexivity.
Qed.
End Ranking.

(** X23: What [/spread] sends at time [now]: every key of the log once per
    entry, with the number of its closes that are at most 30 days
    (2592000 seconds) old, the bound included; the counts never go up
    along the list, and keys with equal counts stay in the order of the
    log. *)
Theorem spread_ranking_window (cycles : list (string * list Z)) (now : Z) :
  let counted :=
    map (fun entry : string * list Z =>
           (entry.1,
            length (filter (fun t => (now - t <= 2592000)%Z) entry.2)))
      cycles in
  spread_ranking cycles now ≡ₚ counted /\
  StronglySorted (fun a b : string * nat => (b.2 <= a.2)%nat)
    (spread_ranking cycles now) /\
  (forall n : nat,
     filter (fun r : string * nat => r.2 = n) (spread_ranking cycles now)
     = filter (fun r : string * nat => r.2 = n) counted) /\
  Forall2 (fun (r : string * nat) (entry : string * list Z) =>
             r.1 = entry.1 /\ (r.2 <= length entry.2)%nat)
    counted cycles.
Proof.
  intros counted.
  assert (E : map (fun '(key, arr) =>
                     (key, count_since (now - 30 * 24 * 3600) arr)) cycles
              = counted).
  { unfold counted. apply map_ext. intros [k arr]. simpl. f_equal.
    unfold count_since. f_equal. apply list_filter_iff. intros t. lia. }
  unfold spread_ranking. cbv zeta. rewrite E.
  split; [apply sort_desc_perm|].
  split; [apply (sort_desc_sorted snd)|].
  split; [intros n; apply (sort_desc_stable snd)|].
  unfold counted. clear E counted.
  induction cycles as [|[k arr] cycles IH]; simpl; constructor.
  - simpl. split; [reflexivity|apply length_filter].
  - exact IH.
Qed.

(** ** The further properties on sample data *)

Lemma count_cycles_monotone_in_close_witness :
  ((lit 1 : float) <=? lit 2)%py = true /\
  (count_cycles_for_thresholds (F := float) scenario_series (lit 5) (lit 1)
   <= count_cycles_for_thresholds scenario_series (lit 5) (lit 2))%nat.
Proof.
  split; [reflexivity|].
  apply (count_cycles_monotone_in_close (F := float)). reflexivity.
Defined.

Lemma sweep_report_shape_witness :
  let report : list (CycleResult float) :=
    [{| open := 5%float; close := 1%float; cycles := 2 |};
     {| open := 4.5%float; close := 0.5%float; cycles := 1 |};
     {| open := 5%float; close := 0.5%float; cycles := 1 |}] in
  sweep 7 scenario_config scenario_series = Some report /\
  (length report <= 5)%nat /\
  StronglySorted (fun r1 r2 => (cycles r2 <= cycles r1)%nat) report.
Proof.
  intros report.
  assert (E : sweep 7 scenario_config scenario_series = Some report)
    by (vm_compute; reflexivity).
  split; [exact E|].
  destruct (sweep_report_shape 7 scenario_config scenario_series report E)
    as (Hlen & _ & Hsorted & _).
  split; assumption.
Defined.

Lemma default_report_thresholds_witness :
  let spreads : list float :=
    map lit [1; 5; 6; 2; 1 # 2; 7; 1; 0; 31; 0]%Q in
  let report : list (CycleResult float) :=
    [{| open := 4.5%float; close := 0.5%float; cycles := 3 |};
     {| open := 5%float; close := 0.5%float; cycles := 3 |};
     {| open := 5%float; close := 1%float; cycles := 3 |};
     {| open := 5.5%float; close := 0.5%float; cycles := 3 |};
     {| open := 5.5%float; close := 1%float; cycles := 3 |}] in
  sweep 120 default_config spreads = Some report /\
  Forall (fun r => threshold_pair_ok (open r, close r) = true) report.
Proof.
  intros spreads report.
  assert (E : sweep 120 default_config spreads = Some report)
    by (vm_compute; reflexivity).
  split; [exact E|].
  exact (default_report_thresholds 120 spreads report E).
Defined.

Lemma default_sweep_below_open_min_witness :
  let spreads : list float := map lit [1; 2; 7 # 2; 0]%Q in
  Forall (fun s => (lit 4 <=? s)%py = false) spreads /\
  sweep (120 + 0) default_config spreads = Some [].
Proof.
  intros spreads.
  assert (Hlow : Forall (fun s : float => (lit 4 <=? s)%py = false) spreads)
    by (vm_compute; repeat constructor).
  split; [exact Hlow|].
  exact (default_sweep_below_open_min spreads 0 Hlow).
Defined.

Lemma analyze_pair_uses_cache_witness :
  analyze_pair (logged_source sample_table) scenario_config 7
    "BUSDT" "AUSDT" (lit 1) (klines_cache sample_end) ["AUSDT"; "BUSDT"]
  = (analyze_series scenario_config 7
       (sample_table "BUSDT") (sample_table "AUSDT") (lit 1),
     klines_cache sample_end, ["AUSDT"; "BUSDT"]).
Proof.
  apply (analyze_pair_uses_cache (logged_source sample_table)
           scenario_config 7 "BUSDT" "AUSDT" (lit 1)
           (klines_cache sample_end) ["AUSDT"; "BUSDT"]).
  - vm_compute. reflexivity.
  - vm_compute. reflexivity.
Defined.

Lemma main_report_well_formed_witness :
  (main (logged_source sample_table) scenario_config 7 sample_run_pairs []
   = Some sample_end /\
   analysis sample_end !! "AUSDT-BUSDT" = Some sample_report) /\
  (exists e, e ∈ sample_run_pairs /\ entry_key e = "AUSDT-BUSDT") /\
  (length sample_report <= 5)%nat /\
  Forall (fun r => (0 < cycles r)%nat) sample_report.
Proof.
  assert (E : main (logged_source sample_table) scenario_config 7
                sample_run_pairs [] = Some sample_end)
    by (vm_compute; reflexivity).
  assert (K : analysis sample_end !! "AUSDT-BUSDT" = Some sample_report)
    by (vm_compute; reflexivity).
  split; [split; [exact E|exact K]|].
  exact (main_report_well_formed (logged_source sample_table)
           scenario_config 7 sample_run_pairs [] sample_end E
           "AUSDT-BUSDT" sample_report K).
Defined.

Lemma main_fetches_once_witness :
  main (logged_source sample_table) scenario_config 7 sample_run_pairs []
  = Some sample_end /\
  (forall s, is_Some (sample_table s) ->
     (calls s (world sample_end) <= 1)%nat) /\
  (forall s kl, klines_cache sample_end !! s = Some kl ->
     sample_table s = Some kl).
Proof.
  assert (E : main (logged_source sample_table) scenario_config 7
                sample_run_pairs [] = Some sample_end)
    by (vm_compute; reflexivity).
  split; [exact E|].
  exact (main_fetches_once sample_table scenario_config 7
           sample_run_pairs sample_end E).
Defined.

Lemma live_monitor_matches_analyzer_witness :
  current_status (pair_key "AUSDT" "BUSDT") sample_bot_state = "inactive" /\
  recorded_cycles (pair_key "AUSDT" "BUSDT")
    (check_pair_run "AUSDT" "BUSDT" (lit 1) (lit 4) (lit 1)
       sample_bot_state sample_polls).1
  = (recorded_cycles (pair_key "AUSDT" "BUSDT") sample_bot_state
     + count_cycles_for_thresholds
         (calc_spread_list (F := float)
            [lit 100; lit 100; lit 100; lit 110]
            [lit 100; lit 106; lit 100; lit 100] (lit 1))
         (lit 4) (lit 1))%nat.
Proof.
  split; [reflexivity|].
  exact (live_monitor_matches_analyzer "AUSDT" "BUSDT" (lit 1) (lit 4) (lit 1)
           sample_bot_state sample_polls eq_refl).
Defined.

Lemma alerts_alternate_and_log_witness :
  current_status (pair_key "AUSDT" "BUSDT") sample_bot_state = "inactive" /\
  alternates Opening
    (alert_kind
       <$> (check_pair_run "AUSDT" "BUSDT" (lit 1) (lit 4) (lit 1)
              sample_bot_state sample_polls).2).
Proof.
  split; [reflexivity|].
  exact (proj1 (alerts_alternate_and_log "AUSDT" "BUSDT" (lit 1) (lit 4) (lit 1)
                  sample_bot_state sample_polls eq_refl)).
Defined.

Lemma unknown_status_is_stuck_witness :
  current_status (pair_key "AUSDT" "BUSDT") paused_bot_state = "paused" /\
  check_pair_run "AUSDT" "BUSDT" (lit 1) (lit 4) (lit 1) paused_bot_state sample_polls
  = (paused_bot_state, []).
Proof.
  split; [vm_compute; reflexivity|].
  apply unknown_status_is_stuck.
  - vm_compute. discriminate.
  - vm_compute. discriminate.
Defined.

Lemma check_pair_run_other_keys_witness :
  let state : BotState :=
    {| status := {["CUSDT-DUSDT" := "active"]};
       cycle_log := {["CUSDT-DUSDT" := [5%Z]]} |} in
  "CUSDT-DUSDT" <> pair_key "AUSDT" "BUSDT" /\
  status (check_pair_run "AUSDT" "BUSDT" (lit 1) (lit 4) (lit 1) state
            sample_polls).1 !! "CUSDT-DUSDT" = Some "active" /\
  cycle_log (check_pair_run "AUSDT" "BUSDT" (lit 1) (lit 4) (lit 1) state
               sample_polls).1 !! "CUSDT-DUSDT" = Some [5%Z].
Proof.
  intros state.
  assert (Hne : "CUSDT-DUSDT" <> pair_key "AUSDT" "BUSDT")
    by (vm_compute; discriminate).
  split; [exact Hne|].
  exact (check_pair_run_other_keys "AUSDT" "BUSDT" (lit 1) (lit 4) (lit 1) state
           sample_polls "CUSDT-DUSDT" Hne).
Defined.

Lemma klines_of_rows_in_order_witness :
  let data : list (list Z) :=
    [[3600; 7; 9; 6; 8; 50]; [7200; 8; 9; 7; 9; 40]]%Z in
  klines_of_rows Some sample_to_float data
  = Some [(3600%Z, 8%Q); (7200%Z, 9%Q)] /\
  length [(3600%Z, 8%Q); (7200%Z, 9%Q)] = length data.
Proof.
  intros data.
  assert (E : klines_of_rows Some sample_to_float data
              = Some [(3600%Z, 8%Q); (7200%Z, 9%Q)]) by reflexivity.
  split; [exact E|].
  exact (proj1 (klines_of_rows_in_order Some sample_to_float data _ E)).
Defined.

Lemma klines_bad_row_fails_witness :
  let data : list (list Z) :=
    [[3600; 7; 9; 6; 8; 50]; [7200; 8; 9]; [10800; 8; 9; 7; 9; 40]]%Z in
  [7200; 8; 9]%Z ∈ data /\
  klines_of_rows Some sample_to_float data = None.
Proof.
  intros data.
  assert (Hin : [7200; 8; 9]%Z ∈ data)
    by (apply elem_of_cons; right; apply elem_of_cons; left; reflexivity).
  split; [exact Hin|].
  apply (klines_bad_row_fails Some sample_to_float data [7200; 8; 9]%Z Hin).
  left. simpl. lia.
Defined.
